(** * 4d-sim: the geometry and lighting pipeline

    A shallow embedding of the particle lattice generators, the 4D-wave
    vertex shader, the Indra's-net fragment shader and the parameter
    store of the simulation, followed by the properties of the
    specification that are settled on it.

    Number model.  JavaScript numbers and GLSL floats are modelled by
    [num]: the real numbers extended with the three IEEE-754 special
    values.  Arithmetic on finite values is exact real arithmetic
    (rounding and overflow are not modelled) and the special values
    follow the IEEE rules; zero has no sign, a zero divisor is taken to
    be [+0]. *)

From Stdlib Require Import Reals Lra Lia ZArith List Bool DecimalString.
From stdpp Require Import base strings gmap.
Import ListNotations.

Local Open Scope R_scope.

(* ===================================================================== *)
(** ** Numbers *)
(* ===================================================================== *)

Module Num.

Inductive num : Type :=
| Fin (r : R)
| PInf
| NInf
| NaN.

Definition is_finite (a : num) : bool :=
  match a with Fin _ => true | _ => false end.

(** The infinity that carries the sign of a non-zero real. *)
Definition inf_of_sign (r : R) : num :=
  if Rlt_dec 0 r then PInf else NInf.

(** An infinity scaled by a finite factor. *)
Definition scale_inf (positive : bool) (r : R) : num :=
  if Req_EM_T r 0 then NaN
  else if Rlt_dec 0 r then (if positive then PInf else NInf)
       else (if positive then NInf else PInf).

Definition nneg (a : num) : num :=
  match a with
  | Fin r => Fin (- r)
  | PInf => NInf
  | NInf => PInf
  | NaN => NaN
  end.

Definition nadd (a b : num) : num :=
  match a, b with
  | NaN, _ | _, NaN => NaN
  | Fin x, Fin y => Fin (x + y)
  | PInf, NInf | NInf, PInf => NaN
  | PInf, _ | _, PInf => PInf
  | NInf, _ | _, NInf => NInf
  end.

Definition nsub (a b : num) : num := nadd a (nneg b).

Definition nmul (a b : num) : num :=
  match a, b with
  | NaN, _ | _, NaN => NaN
  | Fin x, Fin y => Fin (x * y)
  | Fin x, PInf | PInf, Fin x => scale_inf true x
  | Fin x, NInf | NInf, Fin x => scale_inf false x
  | PInf, PInf | NInf, NInf => PInf
  | PInf, NInf | NInf, PInf => NInf
  end.

Definition ndiv (a b : num) : num :=
  match a, b with
  | NaN, _ | _, NaN => NaN
  | Fin x, Fin y =>
      if Req_EM_T y 0
      then (if Req_EM_T x 0 then NaN else inf_of_sign x)
      else Fin (x / y)
  | Fin _, PInf | Fin _, NInf => Fin 0
  | PInf, Fin y => if Rlt_dec y 0 then NInf else PInf
  | NInf, Fin y => if Rlt_dec y 0 then PInf else NInf
  | PInf, _ | NInf, _ => NaN
  end.

Definition nsin (a : num) : num :=
  match a with Fin r => Fin (sin r) | _ => NaN end.

Definition ncos (a : num) : num :=
  match a with Fin r => Fin (cos r) | _ => NaN end.

Definition nsqrt (a : num) : num :=
  match a with
  | Fin r => if Rlt_dec r 0 then NaN else Fin (sqrt r)
  | PInf => PInf
  | _ => NaN
  end.

(** [a < b]; every comparison with NaN is false. *)
Definition nlt (a b : num) : bool :=
  match a, b with
  | NaN, _ | _, NaN => false
  | Fin x, Fin y => if Rlt_dec x y then true else false
  | _, NInf => false
  | NInf, _ => true
  | PInf, _ => false
  | Fin _, PInf => true
  end.

Definition of_Z (z : Z) : num := Fin (IZR z).

End Num.
Export Num.

Declare Scope num_scope.
Delimit Scope num_scope with num.
Bind Scope num_scope with num.
Infix "+" := nadd : num_scope.
Infix "-" := nsub : num_scope.
Infix "*" := nmul : num_scope.
Infix "/" := ndiv : num_scope.
Notation "- x" := (nneg x) : num_scope.
Notation "x <? y" := (nlt x y) : num_scope.

(* ===================================================================== *)
(** ** Vectors and the GLSL built-ins the shaders use *)
(* ===================================================================== *)

Module GLSL.

Record vec2 : Type := mk2 { x2 : num; y2 : num }.
Record vec3 : Type := mk3 { x3 : num; y3 : num; z3 : num }.
Record vec4 : Type := mk4 { vx : num; vy : num; vz : num; vw : num }.

(** A [mat4] is stored by columns: [m[i]] is column [i]. *)
Record mat4 : Type := mkMat { col0 : vec4; col1 : vec4; col2 : vec4; col3 : vec4 }.

Definition fin3 (x y z : R) : vec3 := mk3 (Fin x) (Fin y) (Fin z).
Definition fin4 (x y z w : R) : vec4 := mk4 (Fin x) (Fin y) (Fin z) (Fin w).

Definition of_triple (t : R * R * R) : vec3 := fin3 t.1.1 t.1.2 t.2.

Definition finite3 (v : vec3) : bool :=
  is_finite (x3 v) && is_finite (y3 v) && is_finite (z3 v).
Definition finite4 (v : vec4) : bool :=
  is_finite (vx v) && is_finite (vy v) && is_finite (vz v) && is_finite (vw v).

(** [mix(x, y, a) = x * (1 - a) + y * a]. *)
Definition mix (x y a : num) : num := (x * (Fin 1 - a) + y * a)%num.

Definition mix4 (u v : vec4) (a : num) : vec4 :=
  mk4 (mix (vx u) (vx v) a) (mix (vy u) (vy v) a)
      (mix (vz u) (vz v) a) (mix (vw u) (vw v) a).

(** [max(x, y)]: [y] if [x < y], otherwise [x].  GLSL does not fix the
    result when an operand is NaN; as implementations do (the maxNum of
    IEEE-754), the operand that is a number is returned. *)
Definition gl_max (x y : num) : num :=
  match x, y with
  | NaN, _ => y
  | _, NaN => x
  | _, _ => if (x <? y)%num then y else x
  end.

(** [min(x, y)]: [y] if [y < x], otherwise [x]; with a NaN operand the
    other operand is returned, as for [max]. *)
Definition gl_min (x y : num) : num :=
  match x, y with
  | NaN, _ => y
  | _, NaN => x
  | _, _ => if (y <? x)%num then y else x
  end.

(** [clamp(x, lo, hi) = min(max(x, lo), hi)]. *)
Definition clamp (x lo hi : num) : num := gl_min (gl_max x lo) hi.

(** [smoothstep(e0, e1, x)]: Hermite interpolation of the clamped ratio. *)
Definition smoothstep (e0 e1 x : num) : num :=
  let t := clamp ((x - e0) / (e1 - e0))%num (Fin 0) (Fin 1) in
  (t * t * (Fin 3 - Fin 2 * t))%num.

(** [pow(x, k)] for a constant positive integral exponent [k]; GLSL
    leaves the result undefined for [x < 0], taken to be NaN here. *)
Definition gl_pow (x : num) (k : nat) : num :=
  match x with
  | Fin r => if Rlt_dec r 0 then NaN else Fin (r ^ k)
  | PInf => PInf
  | _ => NaN
  end.

Definition dot2 (u v : vec2) : num := (x2 u * x2 v + y2 u * y2 v)%num.
Definition dot3 (u v : vec3) : num :=
  (x3 u * x3 v + y3 u * y3 v + z3 u * z3 v)%num.
Definition dot4 (u v : vec4) : num :=
  (vx u * vx v + vy u * vy v + vz u * vz v + vw u * vw v)%num.

Definition length2 (v : vec2) : num := nsqrt (dot2 v v).
Definition length3 (v : vec3) : num := nsqrt (dot3 v v).
Definition length4 (v : vec4) : num := nsqrt (dot4 v v).

Definition sub3 (u v : vec3) : vec3 :=
  mk3 (x3 u - x3 v)%num (y3 u - y3 v)%num (z3 u - z3 v)%num.
Definition add3 (u v : vec3) : vec3 :=
  mk3 (x3 u + x3 v)%num (y3 u + y3 v)%num (z3 u + z3 v)%num.
Definition neg3 (v : vec3) : vec3 := mk3 (- x3 v)%num (- y3 v)%num (- z3 v)%num.
Definition scale3 (v : vec3) (s : num) : vec3 :=
  mk3 (x3 v * s)%num (y3 v * s)%num (z3 v * s)%num.
Definition div3 (v : vec3) (s : num) : vec3 :=
  mk3 (x3 v / s)%num (y3 v / s)%num (z3 v / s)%num.
Definition mul3 (u v : vec3) : vec3 :=
  mk3 (x3 u * x3 v)%num (y3 u * y3 v)%num (z3 u * z3 v)%num.

(** [normalize(v) = v / length(v)]. *)
Definition normalize (v : vec3) : vec3 := div3 v (length3 v).

(** [reflect(I, N) = I - 2 * dot(N, I) * N]. *)
Definition reflect (i n : vec3) : vec3 :=
  sub3 i (scale3 n (Fin 2 * dot3 n i)%num).

(** Matrix times column vector. *)
Definition mulMV (m : mat4) (v : vec4) : vec4 :=
  mk4 (vx (col0 m) * vx v + vx (col1 m) * vy v + vx (col2 m) * vz v + vx (col3 m) * vw v)%num
      (vy (col0 m) * vx v + vy (col1 m) * vy v + vy (col2 m) * vz v + vy (col3 m) * vw v)%num
      (vz (col0 m) * vx v + vz (col1 m) * vy v + vz (col2 m) * vz v + vz (col3 m) * vw v)%num
      (vw (col0 m) * vx v + vw (col1 m) * vy v + vw (col2 m) * vz v + vw (col3 m) * vw v)%num.

End GLSL.
Export GLSL.

(* ===================================================================== *)
(** ** Lattice generators *)
(* ===================================================================== *)

Module Lattice.

(** The values a loop [for (let x = 0; x < gridSize; x++)] visits. *)
Definition range (gridSize : Z) : list Z :=
  map Z.of_nat (seq 0 (Z.to_nat gridSize)).

(** [(x / (gridSize - 1)) * 2 - 1] *)
Definition axis4D (gridSize x : Z) : num :=
  ((of_Z x / (of_Z gridSize - Fin 1)) * Fin 2 - Fin 1)%num.

(** What one iteration of the innermost loop of [create4DWaveParticles]
    pushes. *)
Definition cell (gridSize x y z w : Z) : list num :=
  [axis4D gridSize x; axis4D gridSize y; axis4D gridSize z; axis4D gridSize w].

(** The array [positions4D] that [create4DWaveParticles] fills: four
    numbers are pushed for every iteration of the innermost loop. *)
Definition create4DWaveParticles (gridSize : Z) : list num :=
  flat_map (fun x =>
    flat_map (fun y =>
      flat_map (fun z =>
        flat_map (fun w =>
          let px := axis4D gridSize x in
          let py := axis4D gridSize y in
          let pz := axis4D gridSize z in
          let pw := axis4D gridSize w in
          [px; py; pz; pw])
        (range gridSize))
      (range gridSize))
    (range gridSize))
  (range gridSize).

Definition spacing : num := Fin 0.5.

(** [(x / (gridSize - 1) - 0.5) * gridSize * spacing] *)
Definition axis3D (gridSize x : Z) : num :=
  ((of_Z x / (of_Z gridSize - Fin 1) - Fin 0.5) * of_Z gridSize * spacing)%num.

(** The array [positions] that [createIndrasNetParticles] fills. *)
Definition createIndrasNetParticles (gridSize : Z) : list num :=
  flat_map (fun x =>
    flat_map (fun y =>
      flat_map (fun z =>
        let px := axis3D gridSize x in
        let py := axis3D gridSize y in
        let pz := axis3D gridSize z in
        [px; py; pz])
      (range gridSize))
    (range gridSize))
  (range gridSize).

(** Item [i] of a buffer attribute of item size 4 over [arr]. *)
Definition item4 (arr : list num) (i : nat) : option vec4 :=
  match arr !! (4 * i)%nat, arr !! (4 * i + 1)%nat,
        arr !! (4 * i + 2)%nat, arr !! (4 * i + 3)%nat with
  | Some x, Some y, Some z, Some w => Some (mk4 x y z w)
  | _, _, _, _ => None
  end.

(** The number of particles, [positions4D.length / 4]. *)
Definition count4 (arr : list num) : nat := (length arr / 4)%nat.

End Lattice.

(* ===================================================================== *)
(** ** The 4D-wave vertex shader *)
(* ===================================================================== *)

Module Wave.

Record Uniforms : Type := mkUniforms {
  time : num;
  angleXY : num;
  angleZW : num;
  spread : num;
  projectionFactor : num;
  colorAnimationSpeed : num;
  particleSize : num;
  matrix1 : mat4;
  matrix2 : mat4;
  interpolation : num;
  modelViewMatrix : mat4;
  projectionMatrix : mat4
}.

(** What the shader writes; [pos4D] and [wFactor] are locals of [main],
    kept so that properties can speak about them. *)
Record VertexOut : Type := mkVertexOut {
  pos4D : vec4;
  wFactor : num;
  pos3D : vec3;
  vColor : vec3;
  vIntensity : num;
  gl_Position : vec4;
  gl_PointSize : num
}.

Definition rotateXY (pos : vec4) (angle : num) : vec4 :=
  let s := nsin angle in
  let c := ncos angle in
  mk4 (c * vx pos - s * vy pos)%num
      (s * vx pos + c * vy pos)%num
      (vz pos)
      (vw pos).

Definition rotateZW (pos : vec4) (angle : num) : vec4 :=
  let s := nsin angle in
  let c := ncos angle in
  mk4 (vx pos)
      (vy pos)
      (c * vz pos - s * vw pos)%num
      (s * vz pos + c * vw pos)%num.

Definition mixMatrix (m1 m2 : mat4) (t : num) : mat4 :=
  mkMat (mix4 (col0 m1) (col0 m2) t)
        (mix4 (col1 m1) (col1 m2) t)
        (mix4 (col2 m1) (col2 m2) t)
        (mix4 (col3 m1) (col3 m2) t).

Definition main (u : Uniforms) (position4D : vec4) : VertexOut :=
  let p := position4D in
  let currentMatrix := mixMatrix (matrix1 u) (matrix2 u) (interpolation u) in
  let p := mulMV currentMatrix p in
  let p := rotateXY p (angleXY u) in
  let p := rotateZW p (angleZW u) in
  let wf := (Fin 1 + vw p * projectionFactor u)%num in
  let q := div3 (mk3 (vx p) (vy p) (vz p)) wf in
  let q := scale3 q (spread u) in
  let colorTime := (time u * colorAnimationSpeed u)%num in
  let color :=
    mk3 (Fin 0.5 + Fin 0.5 * nsin (vw p * Fin 2 + colorTime))%num
        (Fin 0.5 + Fin 0.5 * nsin (vw p * Fin 2 + Fin 2.094))%num
        (Fin 0.5 + Fin 0.5 * nsin (vw p * Fin 2 + Fin 4.189))%num in
  let dist4D := length4 p in
  let intensity := (Fin 0.5 + Fin 0.5 * nsin (dist4D * Fin 0.3 - colorTime))%num in
  let mvPosition := mulMV (modelViewMatrix u) (mk4 (x3 q) (y3 q) (z3 q) (Fin 1)) in
  {| pos4D := p;
     wFactor := wf;
     pos3D := q;
     vColor := color;
     vIntensity := intensity;
     gl_Position := mulMV (projectionMatrix u) mvPosition;
     gl_PointSize := ((Fin 300 * particleSize u) / (- vz mvPosition))%num |}.

(** [new THREE.Matrix4().fromArray(a)] for a 16-element array: the array
    is read in column-major order. *)
Definition fromArray (a : list num) : mat4 :=
  let e i := nth i a NaN in
  mkMat (mk4 (e 0%nat) (e 1%nat) (e 2%nat) (e 3%nat))
        (mk4 (e 4%nat) (e 5%nat) (e 6%nat) (e 7%nat))
        (mk4 (e 8%nat) (e 9%nat) (e 10%nat) (e 11%nat))
        (mk4 (e 12%nat) (e 13%nat) (e 14%nat) (e 15%nat)).

Definition createIdentityMatrix : list num :=
  [ Fin 1; Fin 0; Fin 0; Fin 0;
    Fin 0; Fin 1; Fin 0; Fin 0;
    Fin 0; Fin 0; Fin 1; Fin 0;
    Fin 0; Fin 0; Fin 0; Fin 1 ].

(** The uniform value built from [createIdentityMatrix()]. *)
Definition identity4 : mat4 := fromArray createIdentityMatrix.

(** Uniforms of a frame with both matrices at the identity, no rotation
    and time zero; the remaining values are the defaults of [params]. *)
Definition rest_uniforms (projection : num) : Uniforms :=
  {| time := Fin 0;
     angleXY := Fin 0;
     angleZW := Fin 0;
     spread := Fin 3;
     projectionFactor := projection;
     colorAnimationSpeed := Fin 0;
     particleSize := Fin 0.5;
     matrix1 := identity4;
     matrix2 := identity4;
     interpolation := Fin 0.5;
     modelViewMatrix := identity4;
     projectionMatrix := identity4 |}.

End Wave.

(* ===================================================================== *)
(** ** The Indra's-net fragment shader *)
(* ===================================================================== *)

Module Indra.

Record FragmentIn : Type := mkFragmentIn {
  gl_PointCoord : vec2;
  sharpness : num;
  opacity : num;
  reflectionStrength : num;
  lightIntensity : num;
  vPosition : vec3;
  vViewPosition : vec3;
  vLightPos1 : vec3;
  vLightPos2 : vec3;
  vLightPos3 : vec3;
  vLightColor1 : vec3;
  vLightColor2 : vec3;
  vLightColor3 : vec3
}.

(** [gl_FragColor = vec4(rgb, alpha)]. *)
Record FragColor : Type := mkFragColor { rgb : vec3; alpha : num }.

Definition mirrorBase : vec3 := mk3 (Fin 0.9) (Fin 0.9) (Fin 0.95).

(** The block the shader repeats for each of the three lights: the
    summand added to [reflectedColor]. *)
Definition lightReflection (lightPos lightColor position normal viewDir : vec3)
    (intensity : num) : vec3 :=
  let lightDir := normalize (sub3 lightPos position) in
  let reflectDir := reflect (neg3 lightDir) normal in
  let spec := gl_pow (gl_max (dot3 reflectDir viewDir) (Fin 0)) 32 in
  let dist := length3 (sub3 lightPos position) in
  let attenuation := (intensity / (Fin 1 + dist * dist * Fin 0.05))%num in
  scale3 (scale3 lightColor spec) attenuation.

(** [dist], the distance of the fragment from the centre of its point. *)
Definition centerDist (pc : vec2) : num :=
  length2 (mk2 (x2 pc - Fin 0.5)%num (y2 pc - Fin 0.5)%num).

Definition centerGlow (pc : vec2) : num :=
  gl_pow (Fin 1 - centerDist pc * Fin 2)%num 16.

(** [main]; [None] stands for [discard]. *)
Definition main (i : FragmentIn) : option FragColor :=
  let pc := gl_PointCoord i in
  let dist := centerDist pc in
  if (Fin 0.5 <? dist)%num then None else
  let innerRadius := mix (Fin 0.35) (Fin 0.48) (sharpness i) in
  let a := (Fin 1 - smoothstep innerRadius (Fin 0.5) dist)%num in
  let nxy := mk2 ((x2 pc - Fin 0.5) * Fin 2)%num ((y2 pc - Fin 0.5) * Fin 2)%num in
  let r2 := dot2 nxy nxy in
  if (Fin 1 <? r2)%num then None else
  let normal := mk3 (x2 nxy) (y2 nxy) (nsqrt (Fin 1 - r2)%num) in
  let viewDir := normalize (vViewPosition i) in
  let reflectedColor := mk3 (Fin 0) (Fin 0) (Fin 0) in
  let reflectedColor :=
    add3 reflectedColor
      (lightReflection (vLightPos1 i) (vLightColor1 i) (vPosition i) normal viewDir
         (lightIntensity i)) in
  let reflectedColor :=
    add3 reflectedColor
      (lightReflection (vLightPos2 i) (vLightColor2 i) (vPosition i) normal viewDir
         (lightIntensity i)) in
  let reflectedColor :=
    add3 reflectedColor
      (lightReflection (vLightPos3 i) (vLightColor3 i) (vPosition i) normal viewDir
         (lightIntensity i)) in
  let k := scale3 reflectedColor (reflectionStrength i) in
  let finalColor :=
    mul3 mirrorBase (mk3 (Fin 0.15 + x3 k)%num (Fin 0.15 + y3 k)%num (Fin 0.15 + z3 k)%num) in
  let finalColor :=
    add3 finalColor (scale3 (scale3 mirrorBase (centerGlow pc)) (Fin 0.8)) in
  Some {| rgb := finalColor; alpha := (a * opacity i)%num |}.

(** The two [discard] tests of [main]. *)
Definition discarded (pc : vec2) : bool :=
  let nxy := mk2 ((x2 pc - Fin 0.5) * Fin 2)%num ((y2 pc - Fin 0.5) * Fin 2)%num in
  (Fin 0.5 <? centerDist pc)%num || (Fin 1 <? dot2 nxy nxy)%num.

(** A fragment whose uniforms and varyings are finite numbers. *)
Definition fragment (pcx pcy sharp opac strength intensity : R)
    (position view light1 light2 light3 color1 color2 color3 : R * R * R)
    : FragmentIn :=
  {| gl_PointCoord := mk2 (Fin pcx) (Fin pcy);
     sharpness := Fin sharp;
     opacity := Fin opac;
     reflectionStrength := Fin strength;
     lightIntensity := Fin intensity;
     vPosition := of_triple position;
     vViewPosition := of_triple view;
     vLightPos1 := of_triple light1;
     vLightPos2 := of_triple light2;
     vLightPos3 := of_triple light3;
     vLightColor1 := of_triple color1;
     vLightColor2 := of_triple color2;
     vLightColor3 := of_triple color3 |}.

(** The colour that remains when no light contributes: the mirror base
    tint and the centre glow. *)
Definition ambient (pc : vec2) : vec3 :=
  add3 (scale3 mirrorBase (Fin 0.15))
       (scale3 (scale3 mirrorBase (centerGlow pc)) (Fin 0.8)).

End Indra.

(* ===================================================================== *)
(** ** The parameter store: import and reset *)
(* ===================================================================== *)

Module App.

Local Open Scope string_scope.

(** JavaScript values, as far as [JSON.parse] and the parameter object
    need them. *)
#[warnings="-register-all"]
Inductive jsval : Type :=
| JUndefined
| JNull
| JBool (b : bool)
| JNum (x : num)
| JStr (s : string)
| JArr (items : list jsval)
| JObj (fields : list (string * jsval)).

(** The property name of an array index. *)
Definition index_key (i : nat) : string :=
  NilZero.string_of_uint (Nat.to_uint i).

(** The own enumerable properties of a value, in definition order. *)
Definition own_properties (v : jsval) : list (string * jsval) :=
  match v with
  | JObj fields => fields
  | JArr items => imap (fun i x => (index_key i, x)) items
  | JStr s =>
      imap (fun i c => (index_key i, JStr (String c EmptyString)))
           (String.list_ascii_of_string s)
  | _ => []
  end.

(** [Object.assign(target, source)]. *)
Definition object_assign (target : gmap string jsval) (source : jsval)
    : gmap string jsval :=
  foldl (fun m kv => <[ kv.1 := kv.2 ]> m) target (own_properties source).

(** Property read [obj.k]: a missing property reads as [undefined]. *)
Definition get (obj : gmap string jsval) (k : string) : jsval :=
  default JUndefined (obj !! k).

(** Indexed read [a[i]]; [None] is the [TypeError] of reading a property
    of [null] or [undefined]. *)
Definition get_index (a : jsval) (i : nat) : option jsval :=
  match a with
  | JNull | JUndefined => None
  | _ => Some (get (object_assign ∅ a) (index_key i))
  end.

(** The value held by an entry of [material.uniforms]. *)
Inductive uval : Type :=
| UVal (v : jsval)
| UMatrix (elements : list jsval)
| UColor (r g b : num)
| ULight (n : nat).

(** [Matrix4.fromArray(a)]: the sixteen elements [a[0]], ..., [a[15]]. *)
Definition fromArray (a : jsval) : option (list jsval) :=
  mapM (get_index a) (seq 0 16).

Record State : Type := mkState {
  params : gmap string jsval;
  angleXY : num;
  angleZW : num;
  uniforms : gmap string uval
}.

Definition set_params (f : gmap string jsval -> gmap string jsval) (st : State) : State :=
  mkState (f (params st)) (angleXY st) (angleZW st) (uniforms st).

Definition set_uniforms (f : gmap string uval -> gmap string uval) (st : State) : State :=
  mkState (params st) (angleXY st) (angleZW st) (f (uniforms st)).

(** Statements that can throw: the state so far and, unless an exception
    was thrown, a result. *)
Definition M (A : Type) : Type := State -> State * option A.

Definition ret {A} (a : A) : M A := fun st => (st, Some a).
Definition throw {A} : M A := fun st => (st, None).
Definition bind {A B} (m : M A) (k : A -> M B) : M B :=
  fun st =>
    match m st with
    | (st', Some a) => k a st'
    | (st', None) => (st', None)
    end.
Definition modify (f : State -> State) : M unit := fun st => (f st, Some tt).
Definition read {A} (f : State -> A) : M A := fun st => (st, Some (f st)).
Definition lift {A} (o : option A) : M A :=
  match o with Some a => ret a | None => throw end.

Notation "x <- m ;; k" := (bind m (fun x => k))
  (at level 100, m at next level, right associativity).
Notation "m ;; k" := (bind m (fun _ => k))
  (at level 100, right associativity).

Definition createIdentityMatrix : jsval :=
  JArr (map JNum Wave.createIdentityMatrix).

(** The initial value of [params]. *)
Definition default_params : gmap string jsval :=
  list_to_map [
    ("mode", JStr "4d-wave");
    ("gridSize", JNum (Fin 10));
    ("rotationSpeedXY", JNum (Fin 0.5));
    ("rotationSpeedZW", JNum (Fin 0.5));
    ("rotationActiveXY", JBool true);
    ("rotationActiveZW", JBool true);
    ("particleSize", JNum (Fin 0.5));
    ("spread", JNum (Fin 3));
    ("colorIntensity", JNum (Fin 1));
    ("colorAnimationSpeed", JNum (Fin 0));
    ("timeScale", JNum (Fin 1));
    ("projectionFactor", JNum (Fin 0.15));
    ("sharpness", JNum (Fin 1));
    ("glowIntensity", JNum (Fin 0.5));
    ("blendFactor", JNum (Fin 1));
    ("opacity", JNum (Fin 1));
    ("blendingMode", JStr "Normal");
    ("depthWrite", JBool false);
    ("matrix1", createIdentityMatrix);
    ("matrix2", createIdentityMatrix);
    ("interpolation", JNum (Fin 0.5));
    ("reflectionStrength", JNum (Fin 2.5));
    ("reflectionRange", JNum (Fin 5));
    ("lightIntensity", JNum (Fin 3));
    ("lightSpeed", JNum (Fin 0.3))
  ].

(** [params.mode === '4d-wave'] *)
Definition is_4d_wave (p : gmap string jsval) : bool :=
  match get p "mode" with
  | JStr s => String.eqb s "4d-wave"
  | _ => false
  end.

(** The [uniforms] object of the material a particle system is created
    with; building a [Matrix4] from a parameter can throw. *)
Definition createUniforms (p : gmap string jsval) : option (gmap string uval) :=
  if is_4d_wave p then
    m1 ← fromArray (get p "matrix1");
    m2 ← fromArray (get p "matrix2");
    Some (list_to_map [
      ("time", UVal (JNum (Fin 0)));
      ("angleXY", UVal (JNum (Fin 0)));
      ("angleZW", UVal (JNum (Fin 0)));
      ("particleSize", UVal (get p "particleSize"));
      ("spread", UVal (get p "spread"));
      ("colorIntensity", UVal (get p "colorIntensity"));
      ("colorAnimationSpeed", UVal (get p "colorAnimationSpeed"));
      ("projectionFactor", UVal (get p "projectionFactor"));
      ("sharpness", UVal (get p "sharpness"));
      ("glowIntensity", UVal (get p "glowIntensity"));
      ("blendFactor", UVal (get p "blendFactor"));
      ("opacity", UVal (get p "opacity"));
      ("matrix1", UMatrix m1);
      ("matrix2", UMatrix m2);
      ("interpolation", UVal (get p "interpolation"))
    ])
  else
    Some (list_to_map [
      ("time", UVal (JNum (Fin 0)));
      ("lightPosition1", ULight 1);
      ("lightPosition2", ULight 2);
      ("lightPosition3", ULight 3);
      ("lightColor1", UColor (Fin 1) (Fin 0.2) (Fin 0.2));
      ("lightColor2", UColor (Fin 0.2) (Fin 1) (Fin 0.2));
      ("lightColor3", UColor (Fin 0.2) (Fin 0.2) (Fin 1));
      ("reflectionStrength", UVal (get p "reflectionStrength"));
      ("reflectionRange", UVal (get p "reflectionRange"));
      ("lightIntensity", UVal (get p "lightIntensity"));
      ("sharpness", UVal (get p "sharpness"));
      ("opacity", UVal (get p "opacity"))
    ]).

(** [if (material.uniforms.k) material.uniforms.k.value.fromArray(params.k)] *)
Definition updateMatrixUniform (k : string) : M unit :=
  present <- read (fun st => bool_decide (is_Some (uniforms st !! k))) ;;
  if present : bool then
    a <- read (fun st => get (params st) k) ;;
    e <- lift (fromArray a) ;;
    modify (set_uniforms <[ k := UMatrix e ]>)
  else ret tt.

(** [if (material.uniforms.k) material.uniforms.k.value = params.k] *)
Definition updateValueUniform (k : string) : M unit :=
  present <- read (fun st => bool_decide (is_Some (uniforms st !! k))) ;;
  if present : bool then
    v <- read (fun st => get (params st) k) ;;
    modify (set_uniforms <[ k := UVal v ]>)
  else ret tt.

(** The block "Update shader uniforms" shared by import and reset. *)
Definition updateShaderUniforms : M unit :=
  updateMatrixUniform "matrix1" ;;
  updateMatrixUniform "matrix2" ;;
  updateValueUniform "interpolation".

(** [recreateParticleSystem]: the material is replaced by a new one
    (the scene, the camera and the light meshes are not modelled). *)
Definition recreateParticleSystem : M unit :=
  p <- read params ;;
  u <- lift (createUniforms p) ;;
  modify (set_uniforms (fun _ => u)).

(** [createGUI] reads [params.matrix1[index]] and [params.matrix2[index]]
    for every index below 16 to fill the matrix controls, which throws
    when the matrix is [null].  The controls themselves belong to the GUI
    library and are not modelled; [createGUI] writes no parameter.  The
    library can throw where this model returns (a control for a
    parameter whose value is no number, boolean or string), so a
    successful run of the model bounds the successful runs of the
    program from above: what holds after every successful run of the
    model holds after every successful run of the program. *)
Definition createGUI : M unit :=
  p <- read params ;;
  _ <- lift (mapM (get_index (get p "matrix1")) (seq 0 16)) ;;
  _ <- lift (mapM (get_index (get p "matrix2")) (seq 0 16)) ;;
  ret tt.

Inductive outcome : Type :=
| Imported        (**r "Parameters imported" is logged *)
| ImportError.    (**r the catch block: the error is logged and alerted *)

(** The [reader.onload] handler of [importParameters].  [doc] is the
    result of [JSON.parse] on the text of the file, [None] when it throws
    a [SyntaxError]. *)
Definition importParameters (doc : option jsval) (st : State) : State * outcome :=
  match doc with
  | None => (st, ImportError)
  | Some data =>
      let body :=
        modify (set_params (fun p => object_assign p data)) ;;
        updateShaderUniforms ;;
        recreateParticleSystem ;;
        createGUI in
      match body st with
      | (st', Some _) => (st', Imported)
      | (st', None) => (st', ImportError)
      end
  end.

Definition resetRotation (st : State) : State :=
  let body :=
    modify (fun st => mkState (params st) (Fin 0) (Fin 0) (uniforms st)) ;;
    modify (set_params <[ "matrix1" := createIdentityMatrix ]>) ;;
    modify (set_params <[ "matrix2" := createIdentityMatrix ]>) ;;
    modify (set_params <[ "interpolation" := JNum (Fin 0.5) ]>) ;;
    updateShaderUniforms in
  fst (body st).

(** The state after [init]: the default parameters, no rotation yet and
    the material of the 4D-wave particle system. *)
Definition initial_state : State :=
  {| params := default_params;
     angleXY := Fin 0;
     angleZW := Fin 0;
     uniforms := default ∅ (createUniforms default_params) |}.

(** The keys [resetRotation] writes. *)
Definition transform_keys : list string := ["matrix1"; "matrix2"; "interpolation"].

(** [st'] differs from [st] at most in the uniforms named in [keys]. *)
Definition touches_only (keys : list string) (st st' : State) : Prop :=
  params st' = params st
  /\ angleXY st' = angleXY st
  /\ angleZW st' = angleZW st
  /\ forall k, k ∉ keys -> uniforms st' !! k = uniforms st !! k.

(** Statements that leave [params] alone. *)
Definition keeps_params {A} (m : M A) : Prop :=
  forall st, params (m st).1 = params st.

(** The types the interface [SimulationParams] declares. *)
Inductive ftype : Type := TNumber | TBoolean | TString | TMode | TNumberArray.

Definition field_type (k : string) : option ftype :=
  if bool_decide (k = "mode") then Some TMode
  else if bool_decide (k ∈ ["rotationActiveXY"; "rotationActiveZW"; "depthWrite"])
  then Some TBoolean
  else if bool_decide (k = "blendingMode") then Some TString
  else if bool_decide (k ∈ ["matrix1"; "matrix2"]) then Some TNumberArray
  else if bool_decide (k ∈ ["gridSize"; "rotationSpeedXY"; "rotationSpeedZW";
                            "particleSize"; "spread"; "colorIntensity";
                            "colorAnimationSpeed"; "timeScale"; "projectionFactor";
                            "sharpness"; "glowIntensity"; "blendFactor"; "opacity";
                            "interpolation"; "reflectionStrength"; "reflectionRange";
                            "lightIntensity"; "lightSpeed"])
  then Some TNumber
  else None.

Definition is_number (v : jsval) : bool :=
  match v with JNum _ => true | _ => false end.

Definition has_type (t : ftype) (v : jsval) : bool :=
  match t, v with
  | TNumber, JNum _ => true
  | TBoolean, JBool _ => true
  | TString, JStr _ => true
  | TMode, JStr s => String.eqb s "4d-wave" || String.eqb s "indras-net"
  | TNumberArray, JArr items => forallb is_number items
  | _, _ => false
  end.

(** A parameter document is well formed when it is an object whose
    fields have the types of [SimulationParams]. *)
Definition well_formed (d : jsval) : bool :=
  match d with
  | JObj fields =>
      forallb (fun kv => match field_type kv.1 with
                         | Some t => has_type t kv.2
                         | None => true
                         end) fields
  | _ => false
  end.

Definition malformed (doc : option jsval) : bool :=
  match doc with
  | None => true
  | Some d => negb (well_formed d)
  end.

End App.

(* ===================================================================== *)
(** ** Particle systems of both modes *)
(* ===================================================================== *)

Module Particles.

Local Open Scope string_scope.

(** Item [i] of a buffer attribute of item size 3 over [arr]. *)
Definition item3 (arr : list num) (i : nat) : option vec3 :=
  match arr !! (3 * i)%nat, arr !! (3 * i + 1)%nat, arr !! (3 * i + 2)%nat with
  | Some x, Some y, Some z => Some (mk3 x y z)
  | _, _, _ => None
  end.

(** The number of items of such an attribute. *)
Definition count3 (arr : list num) : nat := (length arr / 3)%nat.

(** [createParticleSystem]: the position array of the mode. *)
Definition createParticleSystem (mode : string) (gridSize : Z) : list num :=
  if String.eqb mode "4d-wave"
  then Lattice.create4DWaveParticles gridSize
  else Lattice.createIndrasNetParticles gridSize.

(** The number of particles drawn from that array. *)
Definition drawn (mode : string) (arr : list num) : nat :=
  if String.eqb mode "4d-wave" then Lattice.count4 arr else count3 arr.

(** [particleCount], the number [recreateParticleSystem] and [init]
    log: [Math.pow(gridSize, 4)] or [Math.pow(gridSize, 3)]. *)
Definition particleCount (mode : string) (gridSize : Z) : Z :=
  if String.eqb mode "4d-wave" then (gridSize ^ 4)%Z else (gridSize ^ 3)%Z.

End Particles.

(* ===================================================================== *)
(** ** The 4D-wave fragment shader *)
(* ===================================================================== *)

Module WaveFragment.

Record FragmentIn : Type := mkFragmentIn {
  gl_PointCoord : vec2;
  vColor : vec3;
  vIntensity : num;
  colorIntensity : num;
  sharpness : num;
  glowIntensity : num;
  blendFactor : num;
  opacity : num
}.

(** [main]; [None] stands for [discard]. *)
Definition main (i : FragmentIn) : option Indra.FragColor :=
  let pc := gl_PointCoord i in
  let dist := length2 (mk2 (x2 pc - Fin 0.5)%num (y2 pc - Fin 0.5)%num) in
  if (Fin 0.5 <? dist)%num then None else
  let innerRadius := mix (Fin 0.1) (Fin 0.45) (sharpness i) in
  let a := (Fin 1 - smoothstep innerRadius (Fin 0.5) dist)%num in
  let finalColor := scale3 (scale3 (vColor i) (colorIntensity i)) (vIntensity i) in
  let finalColor :=
    add3 finalColor
      (scale3 (scale3 (mk3 (Fin 0.2) (Fin 0.2) (Fin 0.3)) (Fin 1 - dist * Fin 2)%num)
              (glowIntensity i)) in
  Some {| Indra.rgb := finalColor;
          Indra.alpha := (a * blendFactor i * opacity i)%num |}.

End WaveFragment.

(* ===================================================================== *)
(** ** The animation loop *)
(* ===================================================================== *)

Module Anim.

Local Open Scope string_scope.

(** The parameters [animate] reads, with the types of
    [SimulationParams]. *)
Record TickParams : Type := mkTickParams {
  mode : string;
  timeScale : num;
  rotationSpeedXY : num;
  rotationSpeedZW : num;
  rotationActiveXY : bool;
  rotationActiveZW : bool;
  lightSpeed : num
}.

(** The variables [animate] updates: [time], the two accumulated angles
    and the three entries of [lightPositions]. *)
Record Scene : Type := mkScene {
  time : num;
  angleXY : num;
  angleZW : num;
  light1 : vec3;
  light2 : vec3;
  light3 : vec3
}.

(** One call of [animate], up to the camera update: the clock, then
    the angles (4D-wave mode) or the light orbits (Indra's-net mode). *)
Definition animate (p : TickParams) (s : Scene) : Scene :=
  let t := (time s + Fin 0.016 * timeScale p)%num in
  if String.eqb (mode p) "4d-wave" then
    let delta := (Fin 0.016 * timeScale p)%num in
    let aXY := if rotationActiveXY p
               then (angleXY s + delta * rotationSpeedXY p)%num else angleXY s in
    let aZW := if rotationActiveZW p
               then (angleZW s + delta * rotationSpeedZW p)%num else angleZW s in
    {| time := t; angleXY := aXY; angleZW := aZW;
       light1 := light1 s; light2 := light2 s; light3 := light3 s |}
  else if String.eqb (mode p) "indras-net" then
    let radius := Fin 8 in
    let speed := lightSpeed p in
    {| time := t; angleXY := angleXY s; angleZW := angleZW s;
       light1 := mk3 (ncos (t * speed) * radius)%num
                     (nsin (t * speed * Fin 0.7) * radius * Fin 0.5)%num
                     (nsin (t * speed) * radius)%num;
       light2 := mk3 (nsin (t * speed * Fin 0.8) * radius)%num
                     (ncos (t * speed * Fin 0.6) * radius)%num
                     (ncos (t * speed * Fin 0.8) * radius * Fin 0.7)%num;
       light3 := mk3 (nsin (t * speed * Fin 1.2) * radius * Fin 0.8)%num
                     (nsin (t * speed) * radius * Fin 0.6)%num
                     (ncos (t * speed * Fin 1.2) * radius)%num |}
  else
    {| time := t; angleXY := angleXY s; angleZW := angleZW s;
       light1 := light1 s; light2 := light2 s; light3 := light3 s |}.

(** [THREE.MathUtils.degToRad]: degrees times [Math.PI / 180]. *)
Definition degToRad (degrees : num) : num := (degrees * (Fin PI / Fin 180))%num.

(** What the device-orientation branch of [animate] computes. *)
Record Orientation : Type := mkOrientation {
  newPolar : num;
  newAzimuthal : num;
  position : vec3
}.

(** The device-orientation branch: [currentPolar], [currentAzimuthal]
    and [radius] are what the orbit controls and the camera report. *)
Definition orientCamera (deviceBeta deviceGamma currentPolar currentAzimuthal radius : num)
    : Orientation :=
  let targetPolarAngle := degToRad (Fin 90 - deviceBeta)%num in
  let targetAzimuthalAngle := degToRad deviceGamma in
  let smoothing := Fin 0.1 in
  let np := (currentPolar + (targetPolarAngle - currentPolar) * smoothing)%num in
  let na := (currentAzimuthal + (targetAzimuthalAngle - currentAzimuthal) * smoothing)%num in
  let x := (radius * nsin np * nsin na)%num in
  let y := (radius * ncos np)%num in
  let z := (radius * nsin np * ncos na)%num in
  {| newPolar := np; newAzimuthal := na; position := mk3 x y z |}.

End Anim.

(* ===================================================================== *)
(** ** Finite matrices *)
(* ===================================================================== *)

Module Mat.

Definition finite_mat (m : mat4) : bool :=
  finite4 (col0 m) && finite4 (col1 m) && finite4 (col2 m) && finite4 (col3 m).

End Mat.

(* ===================================================================== *)
(** ** Frames and colours used to state properties *)
(* ===================================================================== *)

Module Frames.

(** The uniforms of a frame with identity matrices and the given
    accumulated angles. *)
Definition turned_uniforms (aXY aZW : num) : Wave.Uniforms :=
  {| Wave.time := Fin 0;
     Wave.angleXY := aXY;
     Wave.angleZW := aZW;
     Wave.spread := Fin 3;
     Wave.projectionFactor := Fin 0.15;
     Wave.colorAnimationSpeed := Fin 0;
     Wave.particleSize := Fin 0.5;
     Wave.matrix1 := Wave.identity4;
     Wave.matrix2 := Wave.identity4;
     Wave.interpolation := Fin 0.5;
     Wave.modelViewMatrix := Wave.identity4;
     Wave.projectionMatrix := Wave.identity4 |}.

(** A triple of non-negative reals. *)
Definition nonneg3 (t : R * R * R) : Prop := 0 <= t.1.1 /\ 0 <= t.1.2 /\ 0 <= t.2.

(** A fragment of the 4D-wave shader whose inputs are finite numbers. *)
Definition wave_fragment (pcx pcy sharp ci vi glow blend opac : R) (color : R * R * R)
    : WaveFragment.FragmentIn :=
  {| WaveFragment.gl_PointCoord := mk2 (Fin pcx) (Fin pcy);
     WaveFragment.vColor := of_triple color;
     WaveFragment.vIntensity := Fin vi;
     WaveFragment.colorIntensity := Fin ci;
     WaveFragment.sharpness := Fin sharp;
     WaveFragment.glowIntensity := Fin glow;
     WaveFragment.blendFactor := Fin blend;
     WaveFragment.opacity := Fin opac |}.

End Frames.

(* ===================================================================== *)
(** ** The parameter store: export and reset to default *)
(* ===================================================================== *)

Module Store.

Import App.

Local Open Scope string_scope.

(** The keys of the object [exportParameters] builds, in its order. *)
Definition export_keys : list string :=
  [ "mode"; "gridSize"; "rotationSpeedXY"; "rotationSpeedZW";
    "rotationActiveXY"; "rotationActiveZW"; "particleSize"; "spread";
    "colorIntensity"; "colorAnimationSpeed"; "timeScale"; "projectionFactor";
    "sharpness"; "glowIntensity"; "blendFactor"; "opacity"; "blendingMode";
    "depthWrite"; "matrix1"; "matrix2"; "interpolation"; "reflectionStrength";
    "reflectionRange"; "lightIntensity"; "lightSpeed" ].

(** The object [data] of [exportParameters]. *)
Definition exportData (p : gmap string jsval) : jsval :=
  JObj (map (fun k => (k, get p k)) export_keys).

(** What [JSON.parse] returns for the text [JSON.stringify] writes for a
    value: a number that is not finite becomes [null], an [undefined]
    array element becomes [null], an [undefined] property is left
    out. *)
Fixpoint json_image (v : jsval) : jsval :=
  match v with
  | JNum x => if is_finite x then JNum x else JNull
  | JArr items =>
      JArr (map (fun x => match x with
                          | JUndefined => JNull
                          | _ => json_image x
                          end) items)
  | JObj fields =>
      JObj (flat_map (fun kv => let '(k, x) := kv in
                                match x with
                                | JUndefined => []
                                | _ => [(k, json_image x)]
                                end) fields)
  | _ => v
  end.

(** The values JSON holds exactly. *)
Fixpoint json_safe (v : jsval) : bool :=
  match v with
  | JUndefined => false
  | JNum x => is_finite x
  | JArr items => forallb json_safe items
  | JObj fields => forallb (fun kv => let '(_, x) := kv in json_safe x) fields
  | _ => true
  end.

(** [exportParameters]: the document a later import of the downloaded
    file parses. *)
Definition exportParameters (p : gmap string jsval) : jsval :=
  json_image (exportData p).

(** [params.k = v] *)
Definition assign (k : string) (v : jsval) : M unit :=
  modify (set_params <[ k := v ]>).

(** A sequence of assignments. *)
Definition assign_all (kvs : list (string * jsval)) : M unit :=
  foldr (fun kv m => assign kv.1 kv.2 ;; m) (ret tt) kvs.

(** The assignments [resetToDefault] starts with, in its order. *)
Definition reset_values : list (string * jsval) :=
  [ ("gridSize", JNum (Fin 10));
    ("matrix1", createIdentityMatrix);
    ("matrix2", createIdentityMatrix);
    ("interpolation", JNum (Fin 0.5));
    ("rotationSpeedXY", JNum (Fin 0.5));
    ("rotationSpeedZW", JNum (Fin 0.5));
    ("rotationActiveXY", JBool true);
    ("rotationActiveZW", JBool true);
    ("particleSize", JNum (Fin 0.5));
    ("spread", JNum (Fin 3));
    ("colorIntensity", JNum (Fin 1));
    ("colorAnimationSpeed", JNum (Fin 0));
    ("projectionFactor", JNum (Fin 0.15));
    ("sharpness", JNum (Fin 1));
    ("glowIntensity", JNum (Fin 0.5));
    ("blendFactor", JNum (Fin 1));
    ("opacity", JNum (Fin 1));
    ("blendingMode", JStr "Normal");
    ("depthWrite", JBool false) ].

(** The statements of [resetToDefault]. *)
Definition resetToDefault_body : M unit :=
  assign_all reset_values ;;
  updateShaderUniforms ;;
  updateValueUniform "particleSize" ;;
  updateValueUniform "spread" ;;
  updateValueUniform "colorIntensity" ;;
  updateValueUniform "projectionFactor" ;;
  modify (fun st => mkState (params st) (Fin 0) (Fin 0) (uniforms st)) ;;
  recreateParticleSystem.

Definition resetToDefault (st : State) : State := (resetToDefault_body st).1.

(** The parameters [resetToDefault] does not assign. *)
Definition kept_by_reset : list string :=
  [ "mode"; "timeScale"; "reflectionStrength"; "reflectionRange";
    "lightIntensity"; "lightSpeed" ].

End Store.

(* ===================================================================== *)
(** ** The parameter store: randomization *)
(* ===================================================================== *)

Module Randomize.

Import App Store.

Local Open Scope string_scope.

(** [fields] with the property [k] set to [v]: an existing property
    keeps its place, a new one goes last. *)
Definition set_field (k : string) (v : jsval) (fields : list (string * jsval))
    : list (string * jsval) :=
  if existsb (fun kv => String.eqb kv.1 k) fields
  then map (fun kv => if String.eqb kv.1 k then (k, v) else kv) fields
  else fields ++ [(k, v)].

(** [a[i] = v] in the strict mode of a module: an array is extended as
    far as needed (the elements skipped read as [undefined]), an object
    gets the property, anything else is a [TypeError] ([None]). *)
Definition set_index (a : jsval) (i : nat) (v : jsval) : option jsval :=
  match a with
  | JArr items =>
      Some (JArr (if (i <? length items)%nat
                  then <[ i := v ]> items
                  else items ++ replicate (i - length items) JUndefined ++ [v]))
  | JObj fields => Some (JObj (set_field (index_key i) v fields))
  | _ => None
  end.

(** [params.k[i] = v] *)
Definition assign_index (k : string) (i : nat) (v : jsval) : M unit :=
  a <- read (fun st => get (params st) k) ;;
  a' <- lift (set_index a i v) ;;
  assign k a'.

(** [for (let i = 0; i < n; i++) body(i)] over the values of [i]. *)
Definition for_each (l : list nat) (body : nat -> M unit) : M unit :=
  foldr (fun i m => body i ;; m) (ret tt) l.

Definition blendingModes : list jsval :=
  [JStr "Normal"; JStr "Additive"; JStr "Subtractive"; JStr "Multiply"].

(** [a[Math.floor(x)]] for an array literal [a]. *)
Definition at_floor (a : list jsval) (x : num) : jsval :=
  match x with
  | Fin r =>
      let z := Int_part r in
      if (0 <=? z)%Z then nth (Z.to_nat z) a JUndefined else JUndefined
  | _ => JUndefined
  end.

(** The assignments to scalar parameters, in the order of the source;
    [random n] is the result of the call of [Math.random()] number [n]
    of this run, the first thirty-two having filled the matrices. *)
Definition random_values (random : nat -> num) : list (string * jsval) :=
  [ ("interpolation", JNum (random 32%nat));
    ("rotationSpeedXY", JNum (random 33%nat * Fin 2)%num);
    ("rotationSpeedZW", JNum (random 34%nat * Fin 2)%num);
    ("rotationActiveXY", JBool (Fin 0.3 <? random 35%nat)%num);
    ("rotationActiveZW", JBool (Fin 0.3 <? random 36%nat)%num);
    ("particleSize", JNum (random 37%nat * Fin 3 + Fin 0.2)%num);
    ("spread", JNum (random 38%nat * Fin 7 + Fin 2)%num);
    ("colorIntensity", JNum (random 39%nat * Fin 1.5 + Fin 0.3)%num);
    ("colorAnimationSpeed", JNum (random 40%nat * Fin 1.5)%num);
    ("projectionFactor", JNum (random 41%nat * Fin 1.5)%num);
    ("sharpness", JNum (random 42%nat));
    ("glowIntensity", JNum (random 43%nat * Fin 1.5)%num);
    ("blendFactor", JNum (random 44%nat * Fin 0.7 + Fin 0.3)%num);
    ("opacity", JNum (random 45%nat * Fin 0.5 + Fin 0.5)%num);
    ("blendingMode", at_floor blendingModes (random 46%nat * Fin 4)%num);
    ("depthWrite", JBool (Fin 0.7 <? random 47%nat)%num);
    ("reflectionStrength", JNum (random 48%nat * Fin 5)%num);
    ("reflectionRange", JNum (random 49%nat * Fin 8 + Fin 2)%num);
    ("lightIntensity", JNum (random 50%nat * Fin 4 + Fin 0.5)%num);
    ("lightSpeed", JNum (random 51%nat * Fin 1.5 + Fin 0.2)%num) ].

(** The entry [(Math.random() - 0.5) * 4] of a matrix. *)
Definition random_entry (x : num) : jsval := JNum ((x - Fin 0.5) * Fin 4)%num.

Definition randomizeParameters (random : nat -> num) : M unit :=
  for_each (seq 0 16) (fun i =>
    assign_index "matrix1" i (random_entry (random (2 * i)%nat)) ;;
    assign_index "matrix2" i (random_entry (random (2 * i + 1)%nat))) ;;
  assign_all (random_values random) ;;
  updateShaderUniforms ;;
  updateValueUniform "particleSize" ;;
  updateValueUniform "spread" ;;
  updateValueUniform "colorIntensity" ;;
  updateValueUniform "colorAnimationSpeed" ;;
  updateValueUniform "projectionFactor" ;;
  updateValueUniform "sharpness" ;;
  updateValueUniform "glowIntensity" ;;
  updateValueUniform "blendFactor" ;;
  updateValueUniform "opacity" ;;
  updateValueUniform "reflectionStrength" ;;
  updateValueUniform "reflectionRange" ;;
  updateValueUniform "lightIntensity" ;;
  createGUI.

(** The ranges the comments of [randomizeParameters] give for the
    numeric parameters: lower bound, upper bound. *)
Definition random_ranges : list (string * (R * R)) :=
  [ ("interpolation", (0, 1));
    ("rotationSpeedXY", (0, 2));
    ("rotationSpeedZW", (0, 2));
    ("particleSize", (0.2, 3.2));
    ("spread", (2, 9));
    ("colorIntensity", (0.3, 1.8));
    ("colorAnimationSpeed", (0, 1.5));
    ("projectionFactor", (0, 1.5));
    ("sharpness", (0, 1));
    ("glowIntensity", (0, 1.5));
    ("blendFactor", (0.3, 1));
    ("opacity", (0.5, 1));
    ("reflectionStrength", (0, 5));
    ("reflectionRange", (2, 10));
    ("lightIntensity", (0.5, 4.5));
    ("lightSpeed", (0.2, 1.7)) ].

(** A matrix entry within the range of the comment, "-2 to 2". *)
Definition entry_in_range (x : jsval) : Prop :=
  exists v, x = JNum (Fin v) /\ -2 <= v < 2.

(** The keys [randomizeParameters] writes. *)
Definition randomized_keys : list string :=
  "matrix1" :: "matrix2" :: (random_values (fun _ => NaN)).*1.

End Randomize.

(* ===================================================================== *)
(** ** Well-typed parameter stores *)
(* ===================================================================== *)

Module Typing.

Import App.

(** A store in which every field of [SimulationParams] is present with
    a value of its declared type. *)
Definition well_typed (p : gmap string jsval) : Prop :=
  forall k t, field_type k = Some t -> exists v, p !! k = Some v /\ has_type t v = true.

End Typing.

(* ===================================================================== *)
(** ** Guarded writes to the uniforms *)
(* ===================================================================== *)

Module Guarded.

(** [if (uniforms.k) uniforms.k.value = v]: the entry [k] is overwritten
    only if it exists. *)
Definition overwrite {V} (k : string) (v : V) (u : gmap string V) : gmap string V :=
  if bool_decide (is_Some (u !! k)) then <[ k := v ]> u else u.

End Guarded.

(* ===================================================================== *)
(** ** Facts about numbers *)
(* ===================================================================== *)

Section NumFacts.

Lemma ndiv_fin (a b : R) : b <> 0 -> (Fin a / Fin b)%num = Fin (a / b).
Proof.
  intros Hb. unfold ndiv. destruct (Req_EM_T b 0) as [E | _]; [contradiction | reflexivity].
Qed.

Lemma ndiv_zero_zero : (Fin 0 / Fin 0)%num = NaN.
Proof.
  unfold ndiv. destruct (Req_EM_T 0 0) as [_ | N]; [reflexivity | exfalso; apply N; reflexivity].
Qed.

Lemma ndiv_by_zero_not_finite (a : num) : is_finite (a / Fin 0)%num = false.
Proof.
  destruct a as [r | | |]; simpl; try reflexivity.
  - destruct (Req_EM_T 0 0) as [_ | N]; [| exfalso; apply N; reflexivity].
    destruct (Req_EM_T r 0); [reflexivity |].
    unfold inf_of_sign. destruct (Rlt_dec 0 r); reflexivity.
  - destruct (Rlt_dec 0 0); reflexivity.
  - destruct (Rlt_dec 0 0); reflexivity.
Qed.

Lemma scale_inf_not_finite (s : bool) (r : R) : is_finite (scale_inf s r) = false.
Proof.
  unfold scale_inf.
  destruct (Req_EM_T r 0); [reflexivity |].
  destruct (Rlt_dec 0 r), s; reflexivity.
Qed.

Lemma nmul_not_finite_l (a b : num) : is_finite a = false -> is_finite (a * b)%num = false.
Proof.
  destruct a, b; simpl; intros H; try discriminate; auto using scale_inf_not_finite.
Qed.

Lemma nmul_not_finite_r (a b : num) : is_finite b = false -> is_finite (a * b)%num = false.
Proof.
  destruct a, b; simpl; intros H; try discriminate; auto using scale_inf_not_finite.
Qed.

Lemma nadd_not_finite_l (a b : num) : is_finite a = false -> is_finite (a + b)%num = false.
Proof.
  destruct a, b; simpl; intros H; try discriminate; reflexivity.
Qed.

Lemma nadd_not_finite_r (a b : num) : is_finite b = false -> is_finite (a + b)%num = false.
Proof.
  destruct a, b; simpl; intros H; try discriminate; reflexivity.
Qed.

Lemma is_finite_inv (a : num) : is_finite a = true -> exists r, a = Fin r.
Proof.
  destruct a; intros H; try discriminate. eauto.
Qed.

Lemma nsqrt_fin (r : R) : 0 <= r -> nsqrt (Fin r) = Fin (sqrt r).
Proof.
  intros H. simpl. destruct (Rlt_dec r 0); [lra | reflexivity].
Qed.

Lemma gl_pow_fin (r : R) (k : nat) : 0 <= r -> gl_pow (Fin r) k = Fin (r ^ k).
Proof.
  intros H. simpl. destruct (Rlt_dec r 0); [lra | reflexivity].
Qed.

Lemma gl_max_fin_zero (r : R) : exists m, gl_max (Fin r) (Fin 0) = Fin m /\ 0 <= m.
Proof.
  unfold gl_max. simpl. destruct (Rlt_dec r 0).
  - exists 0. split; [reflexivity | lra].
  - exists r. split; [reflexivity | lra].
Qed.

(** A ratio of a part to a positive whole stays between 0 and 1. *)
Lemma ratio_bounds (a d : R) : 0 <= a <= d -> 0 < d -> 0 <= a / d <= 1.
Proof.
  intros [Ha Had] Hd. split.
  - apply Rmult_le_pos; [assumption | left; apply Rinv_0_lt_compat; assumption].
  - apply Rmult_le_reg_r with d; [assumption |].
    unfold Rdiv. rewrite Rmult_assoc, Rinv_l by lra. lra.
Qed.

Lemma half_sine_bounds (t : R) : 0 <= 0.5 + 0.5 * sin t <= 1.
Proof.
  pose proof (SIN_bound t). lra.
Qed.

End NumFacts.

(* ===================================================================== *)
(** ** Lattice generation *)
(* ===================================================================== *)

Section FlatMapBlocks.

Context {A B : Type} (f : A -> list B) (k : nat).
Hypothesis block : forall a, length (f a) = k.

Lemma length_flat_map_blocks (l : list A) :
  length (flat_map f l) = (length l * k)%nat.
Proof using block.
  induction l as [| a l IH]; simpl; [reflexivity |].
  rewrite length_app, block, IH. reflexivity.
Qed.

Lemma lookup_flat_map_blocks (l : list A) (i j : nat) (a : A) :
  l !! i = Some a -> (j < k)%nat ->
  flat_map f l !! (i * k + j)%nat = f a !! j.
Proof using block.
  revert i. induction l as [| b l IH]; intros i Hi Hj; [discriminate |].
  destruct i as [| i]; simpl in *.
  - injection Hi as ->. apply lookup_app_l. rewrite block. assumption.
  - rewrite lookup_app_r by (rewrite block; lia).
    rewrite block. replace (k + i * k + j - k)%nat with (i * k + j)%nat by lia.
    apply IH; assumption.
Qed.

End FlatMapBlocks.

Section LatticeFacts.

Import Lattice.

Lemma length_range (n : Z) : length (range n) = Z.to_nat n.
Proof. unfold range. rewrite length_map, length_seq. reflexivity. Qed.

Lemma lookup_range (n : Z) (x : nat) :
  (x < Z.to_nat n)%nat -> range n !! x = Some (Z.of_nat x).
Proof.
  intros H. unfold range. rewrite list_lookup_fmap.
  rewrite lookup_seq_lt by assumption. reflexivity.
Qed.

Lemma elem_of_range (n x : Z) : In x (range n) -> (0 <= x <= n - 1)%Z.
Proof.
  unfold range. rewrite in_map_iff. intros (k & <- & Hk).
  apply in_seq in Hk. lia.
Qed.

Lemma axis4D_fin (n x : Z) :
  (2 <= n)%Z -> axis4D n x = Fin (IZR x / (IZR n - 1) * 2 - 1).
Proof.
  intros Hn. unfold axis4D, of_Z, nsub. cbn [nneg nadd].
  assert (1 < IZR n) by (apply (IZR_lt 1); lia).
  rewrite ndiv_fin by lra. reflexivity.
Qed.

Lemma axis4D_bounds (n x : Z) :
  (2 <= n)%Z -> (0 <= x <= n - 1)%Z ->
  exists r, axis4D n x = Fin r /\ -1 <= r <= 1.
Proof.
  intros Hn [Hx0 Hx1]. rewrite axis4D_fin by assumption.
  eexists. split; [reflexivity |].
  assert (1 < IZR n) by (apply (IZR_lt 1); lia).
  assert (0 <= IZR x) by (apply (IZR_le 0); assumption).
  assert (IZR x <= IZR n - 1) by (rewrite <- minus_IZR; apply IZR_le; assumption).
  pose proof (ratio_bounds (IZR x) (IZR n - 1)). lra.
Qed.

End LatticeFacts.

Section Lattice4D.

Import Lattice.

Variable n : Z.
Local Abbreviation N := (Z.to_nat n).
Local Abbreviation cell := (Lattice.cell n).

Lemma length_create4DWaveParticles :
  length (create4DWaveParticles n) = (N * (N * (N * (N * 4))))%nat.
Proof.
  unfold create4DWaveParticles.
  rewrite (length_flat_map_blocks _ (N * (N * (N * 4)))), length_range; [reflexivity |].
  intros x. rewrite (length_flat_map_blocks _ (N * (N * 4))), length_range; [reflexivity |].
  intros y. rewrite (length_flat_map_blocks _ (N * 4)), length_range; [reflexivity |].
  intros z. rewrite (length_flat_map_blocks _ 4), length_range; [reflexivity |].
  intros w. reflexivity.
Qed.

Lemma lookup_create4DWaveParticles (x y z w c : nat) :
  (x < N)%nat -> (y < N)%nat -> (z < N)%nat -> (w < N)%nat -> (c < 4)%nat ->
  create4DWaveParticles n
    !! (x * (N * (N * (N * 4))) + (y * (N * (N * 4)) + (z * (N * 4) + (w * 4 + c))))%nat
  = cell (Z.of_nat x) (Z.of_nat y) (Z.of_nat z) (Z.of_nat w) !! c.
Proof.
  intros Hx Hy Hz Hw Hc. unfold create4DWaveParticles.
  assert (B1 : forall x y z : Z,
    forall w, length (cell x y z w) = 4%nat) by reflexivity.
  assert (B2 : forall x y : Z, forall z,
    length (flat_map (fun w => cell x y z w) (range n)) = (N * 4)%nat).
  { intros. rewrite (length_flat_map_blocks _ 4), length_range by reflexivity. reflexivity. }
  assert (B3 : forall x : Z, forall y,
    length (flat_map (fun z => flat_map (fun w => cell x y z w) (range n)) (range n))
    = (N * (N * 4))%nat).
  { intros. rewrite (length_flat_map_blocks _ (N * 4)), length_range by apply B2. reflexivity. }
  assert (B4 : forall x : Z,
    length (flat_map (fun y => flat_map (fun z => flat_map (fun w => cell x y z w)
                       (range n)) (range n)) (range n))
    = (N * (N * (N * 4)))%nat).
  { intros. rewrite (length_flat_map_blocks _ (N * (N * 4))), length_range by apply B3.
    reflexivity. }
  rewrite (lookup_flat_map_blocks _ _ B4 _ _ _ (Z.of_nat x)); [| apply lookup_range; assumption |].
  2:{ assert (y * (N * (N * 4)) <= (N - 1) * (N * (N * 4)))%nat
        by (apply Nat.mul_le_mono_r; lia).
      assert (z * (N * 4) <= (N - 1) * (N * 4))%nat by (apply Nat.mul_le_mono_r; lia).
      nia. }
  rewrite (lookup_flat_map_blocks _ _ (B3 _) _ _ _ (Z.of_nat y)); [| apply lookup_range; assumption |].
  2:{ assert (z * (N * 4) <= (N - 1) * (N * 4))%nat by (apply Nat.mul_le_mono_r; lia).
      nia. }
  rewrite (lookup_flat_map_blocks _ _ (B2 _ _) _ _ _ (Z.of_nat z)); [| apply lookup_range; assumption |].
  2:{ nia. }
  rewrite (lookup_flat_map_blocks _ _ (B1 _ _ _) _ _ _ (Z.of_nat w)); [| apply lookup_range; assumption |].
  2:{ assumption. }
  reflexivity.
Qed.

Lemma item4_create4DWaveParticles (x y z w : nat) :
  (x < N)%nat -> (y < N)%nat -> (z < N)%nat -> (w < N)%nat ->
  item4 (create4DWaveParticles n) (((x * N + y) * N + z) * N + w)
  = Some (mk4 (axis4D n (Z.of_nat x)) (axis4D n (Z.of_nat y))
              (axis4D n (Z.of_nat z)) (axis4D n (Z.of_nat w))).
Proof.
  intros Hx Hy Hz Hw. unfold item4.
  pose proof (lookup_create4DWaveParticles x y z w 0 Hx Hy Hz Hw ltac:(lia)) as L0.
  pose proof (lookup_create4DWaveParticles x y z w 1 Hx Hy Hz Hw ltac:(lia)) as L1.
  pose proof (lookup_create4DWaveParticles x y z w 2 Hx Hy Hz Hw ltac:(lia)) as L2.
  pose proof (lookup_create4DWaveParticles x y z w 3 Hx Hy Hz Hw ltac:(lia)) as L3.
  replace (4 * (((x * N + y) * N + z) * N + w))%nat
    with (x * (N * (N * (N * 4))) + (y * (N * (N * 4)) + (z * (N * 4) + (w * 4 + 0))))%nat
    by lia.
  replace (x * (N * (N * (N * 4))) + (y * (N * (N * 4)) + (z * (N * 4) + (w * 4 + 0))) + 1)%nat
    with (x * (N * (N * (N * 4))) + (y * (N * (N * 4)) + (z * (N * 4) + (w * 4 + 1))))%nat
    by lia.
  replace (x * (N * (N * (N * 4))) + (y * (N * (N * 4)) + (z * (N * 4) + (w * 4 + 0))) + 2)%nat
    with (x * (N * (N * (N * 4))) + (y * (N * (N * 4)) + (z * (N * 4) + (w * 4 + 2))))%nat
    by lia.
  replace (x * (N * (N * (N * 4))) + (y * (N * (N * 4)) + (z * (N * 4) + (w * 4 + 0))) + 3)%nat
    with (x * (N * (N * (N * 4))) + (y * (N * (N * 4)) + (z * (N * 4) + (w * 4 + 3))))%nat
    by lia.
  rewrite L0, L1, L2, L3. reflexivity.
Qed.

Lemma In_create4DWaveParticles (c : num) :
  In c (create4DWaveParticles n) ->
  exists x y z w, In x (range n) /\ In y (range n) /\ In z (range n) /\ In w (range n)
                  /\ In c (cell x y z w).
Proof.
  unfold create4DWaveParticles. intros H.
  apply in_flat_map in H as (x & Hx & H).
  apply in_flat_map in H as (y & Hy & H).
  apply in_flat_map in H as (z & Hz & H).
  apply in_flat_map in H as (w & Hw & H).
  exists x, y, z, w. auto.
Qed.

End Lattice4D.

Section LatticeDegenerate.

Import Lattice.

Lemma range_nonpositive (n : Z) : (n <= 0)%Z -> range n = [].
Proof.
  intros H. unfold range. replace (Z.to_nat n) with 0%nat by lia. reflexivity.
Qed.

Lemma axis4D_one : axis4D 1 0 = NaN.
Proof.
  unfold axis4D, of_Z, nsub. cbn [nneg nadd].
  replace (1 + - (1)) with 0 by lra.
  rewrite ndiv_zero_zero. reflexivity.
Qed.

Lemma axis3D_one : axis3D 1 0 = NaN.
Proof.
  unfold axis3D, of_Z, nsub. cbn [nneg nadd].
  replace (1 + - (1)) with 0 by lra.
  rewrite ndiv_zero_zero. reflexivity.
Qed.

Lemma create4DWaveParticles_one :
  create4DWaveParticles 1 = [NaN; NaN; NaN; NaN].
Proof.
  unfold create4DWaveParticles. change (range 1) with [0%Z].
  cbn [flat_map app]. rewrite axis4D_one. reflexivity.
Qed.

Lemma createIndrasNetParticles_one :
  createIndrasNetParticles 1 = [NaN; NaN; NaN].
Proof.
  unfold createIndrasNetParticles. change (range 1) with [0%Z].
  cbn [flat_map app]. rewrite axis3D_one. reflexivity.
Qed.

End LatticeDegenerate.

(** C1.  For every integer resolution [n >= 2] the 4D-wave generator
    produces exactly [n^4] coordinates, every component of every
    coordinate is a finite number of [[-1, 1]], and the enumeration is
    the nested x, y, z, w order: the particle of index [i] is the
    coordinate whose axis steps are the base-[n] digits of [i], most
    significant first.  The generator is a function of [n] only, so the
    same [n] always gives the same particle at the same index. *)
Theorem lattice4D_count_range_order (n : Z) :
  (2 <= n)%Z ->
  let N := Z.to_nat n in
  let arr := Lattice.create4DWaveParticles n in
  Lattice.count4 arr = (N ^ 4)%nat
  /\ (forall c, In c arr -> exists r, c = Fin r /\ -1 <= r <= 1)
  /\ (forall i, (i < N ^ 4)%nat ->
        Lattice.item4 arr i
        = Some (mk4 (Lattice.axis4D n (Z.of_nat (i / N ^ 3)))
                    (Lattice.axis4D n (Z.of_nat ((i / N ^ 2) mod N)))
                    (Lattice.axis4D n (Z.of_nat ((i / N) mod N)))
                    (Lattice.axis4D n (Z.of_nat (i mod N))))).
Proof.
  intros Hn N arr.
  assert (HN : (2 <= N)%nat) by (subst N; lia).
  split; [| split].
  - unfold Lattice.count4. subst arr. rewrite length_create4DWaveParticles. fold N.
    replace (N * (N * (N * (N * 4))))%nat with (N ^ 4 * 4)%nat by (simpl; lia).
    apply Nat.div_mul. discriminate.
  - intros c Hc. subst arr.
    apply In_create4DWaveParticles in Hc as (x & y & z & w & Hx & Hy & Hz & Hw & Hc).
    apply elem_of_range in Hx, Hy, Hz, Hw.
    simpl in Hc.
    destruct Hc as [<- | [<- | [<- | [<- | []]]]]; apply axis4D_bounds; assumption.
  - intros i Hi. subst arr.
    set (w := (i mod N)%nat). set (z := ((i / N) mod N)%nat).
    set (y := ((i / N ^ 2) mod N)%nat). set (x := (i / N ^ 3)%nat).
    assert (Hw : (w < N)%nat) by (apply Nat.mod_upper_bound; lia).
    assert (Hz : (z < N)%nat) by (apply Nat.mod_upper_bound; lia).
    assert (Hy : (y < N)%nat) by (apply Nat.mod_upper_bound; lia).
    assert (Hx : (x < N)%nat).
    { apply Nat.Div0.div_lt_upper_bound.
      replace (N ^ 3 * N)%nat with (N ^ 4)%nat by (simpl; lia). assumption. }
    assert (E : i = (((x * N + y) * N + z) * N + w)%nat).
    { pose proof (Nat.div_mod_eq i N) as E1.
      pose proof (Nat.div_mod_eq (i / N) N) as E2.
      pose proof (Nat.div_mod_eq (i / N ^ 2) N) as E3.
      assert (D2 : (i / N / N = i / N ^ 2)%nat).
      { rewrite Nat.Div0.div_div. f_equal. simpl. lia. }
      assert (D3 : (i / N ^ 2 / N = i / N ^ 3)%nat).
      { rewrite Nat.Div0.div_div. f_equal. simpl. lia. }
      rewrite D2 in E2. rewrite D3 in E3.
      fold w in E1. fold z in E2. fold y in E3. fold x in E3.
      rewrite E3 in E2. rewrite E2 in E1. rewrite E1 at 1. lia. }
    rewrite E at 1.
    apply item4_create4DWaveParticles; assumption.
Qed.

Lemma lattice4D_count_range_order_witness :
  (2 <= 2)%Z /\ Lattice.count4 (Lattice.create4DWaveParticles 2) = 16%nat.
Proof.
  split; [lia |].
  exact (proj1 (lattice4D_count_range_order 2 ltac:(lia))).
Defined.

(** C6, as the code has it.  The generators do not validate the
    resolution.  For [n <= 0] no loop body runs and both lattices are
    empty; for [n = 1] the body runs once, divides [0] by [n - 1 = 0] and
    stores NaN in every component. *)
Theorem lattice_resolution_below_two (n : Z) :
  (n < 2)%Z ->
  ((n <= 0)%Z
   /\ Lattice.create4DWaveParticles n = []
   /\ Lattice.createIndrasNetParticles n = [])
  \/ (n = 1%Z
      /\ Lattice.create4DWaveParticles n = [NaN; NaN; NaN; NaN]
      /\ Lattice.createIndrasNetParticles n = [NaN; NaN; NaN]).
Proof.
  intros Hn. destruct (Z.eq_dec n 1%Z) as [-> | Hne].
  - right. split; [reflexivity |].
    split; [apply create4DWaveParticles_one | apply createIndrasNetParticles_one].
  - left. assert (H : (n <= 0)%Z) by lia. split; [assumption |].
    unfold Lattice.create4DWaveParticles, Lattice.createIndrasNetParticles.
    rewrite range_nonpositive by assumption. split; reflexivity.
Qed.

Lemma lattice_resolution_below_two_witness :
  (1 < 2)%Z
  /\ (((1 <= 0)%Z
       /\ Lattice.create4DWaveParticles 1 = []
       /\ Lattice.createIndrasNetParticles 1 = [])
      \/ (1%Z = 1%Z
          /\ Lattice.create4DWaveParticles 1 = [NaN; NaN; NaN; NaN]
          /\ Lattice.createIndrasNetParticles 1 = [NaN; NaN; NaN])).
Proof.
  split; [lia | apply (lattice_resolution_below_two 1); lia].
Defined.

(** C6, counterexample.  At resolution 1 neither generator rejects or
    clamps: each emits one particle, and the division by [n - 1 = 0] has
    been carried out, leaving NaN in every component. *)
Lemma lattice_resolution_one_not_rejected :
  Lattice.create4DWaveParticles 1 = [NaN; NaN; NaN; NaN]
  /\ Lattice.createIndrasNetParticles 1 = [NaN; NaN; NaN]
  /\ Lattice.count4 (Lattice.create4DWaveParticles 1) = 1%nat.
Proof.
  split; [apply create4DWaveParticles_one |].
  split; [apply createIndrasNetParticles_one |].
  rewrite create4DWaveParticles_one. reflexivity.
Qed.

(* ===================================================================== *)
(** ** The 4D-wave transform, projection and colour field *)
(* ===================================================================== *)

Section WaveFacts.

Import Wave.

Lemma mixMatrix_identity (t : R) :
  mixMatrix identity4 identity4 (Fin t)
  = mkMat (fin4 (1 * (1 - t) + 1 * t) (0 * (1 - t) + 0 * t) (0 * (1 - t) + 0 * t) (0 * (1 - t) + 0 * t))
          (fin4 (0 * (1 - t) + 0 * t) (1 * (1 - t) + 1 * t) (0 * (1 - t) + 0 * t) (0 * (1 - t) + 0 * t))
          (fin4 (0 * (1 - t) + 0 * t) (0 * (1 - t) + 0 * t) (1 * (1 - t) + 1 * t) (0 * (1 - t) + 0 * t))
          (fin4 (0 * (1 - t) + 0 * t) (0 * (1 - t) + 0 * t) (0 * (1 - t) + 0 * t) (1 * (1 - t) + 1 * t)).
Proof. reflexivity. Qed.

(** With identity matrices and zero angles the transformed coordinate is
    the base coordinate. *)
Lemma main_pos4D_identity (u : Uniforms) (x y z w t : R) :
  matrix1 u = identity4 -> matrix2 u = identity4 ->
  interpolation u = Fin t ->
  angleXY u = Fin 0 -> angleZW u = Fin 0 ->
  pos4D (main u (fin4 x y z w)) = fin4 x y z w.
Proof.
  intros H1 H2 Ht Hxy Hzw. unfold main. cbn [pos4D].
  rewrite H1, H2, Ht, Hxy, Hzw, mixMatrix_identity.
  unfold rotateZW, rotateXY, mulMV, fin4, nsub.
  cbn [vx vy vz vw col0 col1 col2 col3 nsin ncos nmul nadd nneg].
  rewrite sin_0, cos_0.
  f_equal; f_equal; ring.
Qed.

Lemma rotateXY_fin (x y z w a : R) :
  rotateXY (fin4 x y z w) (Fin a)
  = fin4 (cos a * x - sin a * y) (sin a * x + cos a * y) z w.
Proof. reflexivity. Qed.

Lemma rotateZW_fin (x y z w a : R) :
  rotateZW (fin4 x y z w) (Fin a)
  = fin4 x y (cos a * z - sin a * w) (sin a * z + cos a * w).
Proof. reflexivity. Qed.

(** The colour and the intensity of a finite transformed coordinate. *)
Lemma main_color_bounds (u : Uniforms) (base : vec4) :
  finite4 (pos4D (main u base)) = true ->
  is_finite (time u) = true ->
  is_finite (colorAnimationSpeed u) = true ->
  exists r g b i,
    vColor (main u base) = fin3 r g b
    /\ vIntensity (main u base) = Fin i
    /\ 0 <= r <= 1 /\ 0 <= g <= 1 /\ 0 <= b <= 1 /\ 0 <= i <= 1.
Proof.
  unfold main. cbn [pos4D vColor vIntensity].
  generalize (rotateZW (rotateXY (mulMV (mixMatrix (matrix1 u) (matrix2 u) (interpolation u))
                                        base) (angleXY u)) (angleZW u)).
  intros [px py pz pw] Hp Ht Hs.
  unfold finite4 in Hp. cbn [vx vy vz vw] in Hp.
  apply andb_prop in Hp as [Hp Hw]. apply andb_prop in Hp as [Hp Hz].
  apply andb_prop in Hp as [Hx Hy].
  apply is_finite_inv in Hx as [x ->], Hy as [y ->], Hz as [z ->], Hw as [w ->].
  apply is_finite_inv in Ht as [t ->], Hs as [s ->].
  unfold length4, dot4, nsub. cbn [vx vy vz vw nmul nadd nneg nsin].
  rewrite nsqrt_fin.
  2:{ pose proof (Rle_0_sqr x). pose proof (Rle_0_sqr y).
      pose proof (Rle_0_sqr z). pose proof (Rle_0_sqr w).
      unfold Rsqr in *. lra. }
  cbn [nmul nadd nneg nsin].
  do 4 eexists. split; [reflexivity |]. split; [reflexivity |].
  repeat split; apply half_sine_bounds.
Qed.

(** A matrix applied to a vector whose first component is not finite
    gives no finite component. *)
Lemma mulMV_not_finite (m : mat4) (v : vec4) :
  is_finite (vx v) = false ->
  is_finite (vx (mulMV m v)) = false
  /\ is_finite (vy (mulMV m v)) = false
  /\ is_finite (vz (mulMV m v)) = false
  /\ is_finite (vw (mulMV m v)) = false.
Proof.
  intros H. unfold mulMV. cbn [vx vy vz vw].
  repeat split;
    do 3 apply nadd_not_finite_l; apply nmul_not_finite_r; assumption.
Qed.

End WaveFacts.

(** C2.  The transformed coordinate the vertex shader works with is
    [rotateZW (rotateXY (M * base) angleXY) angleZW].  [M] is the
    element-wise interpolation of the two matrices: each entry is
    [m1 * (1 - interpolation) + m2 * interpolation].  [M * base] is the
    matrix-vector product: each component is the sum over the four
    columns of that component of the column times the matching
    component of [base].  The XY rotation is the Givens rotation of the
    (x, y) pair and keeps z and w, the ZW rotation is that of the (z, w)
    pair and keeps x and y.  The matrix comes before the rotations:
    rotating first and multiplying afterwards gives a different point
    for some frame. *)
Theorem wave_transform_order (u : Wave.Uniforms) (base : vec4) :
  let M := Wave.mixMatrix (Wave.matrix1 u) (Wave.matrix2 u) (Wave.interpolation u) in
  Wave.pos4D (Wave.main u base)
  = Wave.rotateZW (Wave.rotateXY (mulMV M base) (Wave.angleXY u)) (Wave.angleZW u)
  /\ (forall (m1 m2 : mat4) (t : num) (c : mat4 -> vec4) (e : vec4 -> num),
        In c [col0; col1; col2; col3] -> In e [vx; vy; vz; vw] ->
        e (c (Wave.mixMatrix m1 m2 t)) = mix (e (c m1)) (e (c m2)) t
        /\ mix (e (c m1)) (e (c m2)) t = (e (c m1) * (Fin 1 - t) + e (c m2) * t)%num)
  /\ (forall (m : mat4) (v : vec4) (e : vec4 -> num),
        In e [vx; vy; vz; vw] ->
        e (mulMV m v)
        = (e (col0 m) * vx v + e (col1 m) * vy v + e (col2 m) * vz v + e (col3 m) * vw v)%num)
  /\ (forall (p : vec4) (a : num),
        Wave.rotateXY p a
        = mk4 (ncos a * vx p - nsin a * vy p)%num (nsin a * vx p + ncos a * vy p)%num
              (vz p) (vw p))
  /\ (forall (p : vec4) (a : num),
        Wave.rotateZW p a
        = mk4 (vx p) (vy p)
              (ncos a * vz p - nsin a * vw p)%num (nsin a * vz p + ncos a * vw p)%num)
  /\ (exists (u' : Wave.Uniforms) (base' : vec4),
        Wave.pos4D (Wave.main u' base')
        <> mulMV (Wave.mixMatrix (Wave.matrix1 u') (Wave.matrix2 u') (Wave.interpolation u'))
                 (Wave.rotateZW (Wave.rotateXY base' (Wave.angleXY u')) (Wave.angleZW u'))).
Proof.
  intros M. split; [reflexivity |]. split; [| split; [| split; [| split]]].
  - intros m1 m2 t c e Hc He. simpl in Hc, He.
    destruct Hc as [<- | [<- | [<- | [<- | []]]]];
      destruct He as [<- | [<- | [<- | [<- | []]]]]; split; reflexivity.
  - intros m v e He. simpl in He.
    destruct He as [<- | [<- | [<- | [<- | []]]]]; reflexivity.
  - reflexivity.
  - reflexivity.
  - set (D := mkMat (fin4 2 0 0 0) (fin4 0 1 0 0) (fin4 0 0 1 0) (fin4 0 0 0 1)).
    exists {| Wave.time := Fin 0;
              Wave.angleXY := Fin (PI / 2);
              Wave.angleZW := Fin 0;
              Wave.spread := Fin 3;
              Wave.projectionFactor := Fin 0;
              Wave.colorAnimationSpeed := Fin 0;
              Wave.particleSize := Fin 0.5;
              Wave.matrix1 := D;
              Wave.matrix2 := D;
              Wave.interpolation := Fin 0;
              Wave.modelViewMatrix := Wave.identity4;
              Wave.projectionMatrix := Wave.identity4 |}, (fin4 1 0 0 0).
    match goal with
    | |- Wave.pos4D (Wave.main ?f ?b) <> _ =>
        change (Wave.pos4D (Wave.main f b))
          with (Wave.rotateZW
                  (Wave.rotateXY
                     (mulMV (Wave.mixMatrix (Wave.matrix1 f) (Wave.matrix2 f)
                               (Wave.interpolation f)) b)
                     (Wave.angleXY f))
                  (Wave.angleZW f))
    end.
    cbn [Wave.matrix1 Wave.matrix2 Wave.interpolation Wave.angleXY Wave.angleZW].
    intros Q. apply (f_equal vy) in Q. revert Q.
    unfold Wave.mixMatrix, Wave.rotateXY, Wave.rotateZW, mulMV, mix4, mix, D, fin4, nsub.
    cbn [col0 col1 col2 col3 vx vy vz vw nsin ncos nneg nadd nmul].
    rewrite sin_PI2, cos_PI2.
    intros Q. injection Q as Q. lra.
Qed.

(** C3.  For a finite transformed coordinate and finite [time] and
    [colorAnimationSpeed], the three colour channels and the intensity
    are finite numbers of [[0, 1]]. *)
Theorem color_field_unit_interval (u : Wave.Uniforms) (base : vec4) :
  finite4 (Wave.pos4D (Wave.main u base)) = true ->
  is_finite (Wave.time u) = true ->
  is_finite (Wave.colorAnimationSpeed u) = true ->
  exists r g b i,
    Wave.vColor (Wave.main u base) = fin3 r g b
    /\ Wave.vIntensity (Wave.main u base) = Fin i
    /\ 0 <= r <= 1 /\ 0 <= g <= 1 /\ 0 <= b <= 1 /\ 0 <= i <= 1.
Proof. apply main_color_bounds. Qed.

(** C8.  With both matrices equal to the identity and both angles zero,
    the transform returns the base coordinate, whatever the
    interpolation fraction. *)
Theorem wave_transform_identity (u : Wave.Uniforms) (x y z w t : R) :
  Wave.matrix1 u = Wave.identity4 -> Wave.matrix2 u = Wave.identity4 ->
  Wave.interpolation u = Fin t ->
  Wave.angleXY u = Fin 0 -> Wave.angleZW u = Fin 0 ->
  Wave.pos4D (Wave.main u (fin4 x y z w)) = fin4 x y z w.
Proof. apply main_pos4D_identity. Qed.

Lemma wave_transform_identity_witness :
  Wave.pos4D (Wave.main (Wave.rest_uniforms (Fin 0.15)) (fin4 1 (-1) 1 (-1)))
  = fin4 1 (-1) 1 (-1).
Proof.
  apply (wave_transform_identity (Wave.rest_uniforms (Fin 0.15)) 1 (-1) 1 (-1) 0.5);
    reflexivity.
Defined.

(** C9.  On either plane, the rotation by [theta] followed by the
    rotation by [phi] is the rotation by [theta + phi]; two quarter turns
    make a half turn. *)
Theorem rotation_additive (x y z w theta phi : R) :
  Wave.rotateXY (Wave.rotateXY (fin4 x y z w) (Fin theta)) (Fin phi)
  = Wave.rotateXY (fin4 x y z w) (Fin theta + Fin phi)%num
  /\ Wave.rotateZW (Wave.rotateZW (fin4 x y z w) (Fin theta)) (Fin phi)
     = Wave.rotateZW (fin4 x y z w) (Fin theta + Fin phi)%num
  /\ Wave.rotateXY (Wave.rotateXY (fin4 x y z w) (Fin (PI / 2))) (Fin (PI / 2))
     = Wave.rotateXY (fin4 x y z w) (Fin PI)
  /\ Wave.rotateZW (Wave.rotateZW (fin4 x y z w) (Fin (PI / 2))) (Fin (PI / 2))
     = Wave.rotateZW (fin4 x y z w) (Fin PI).
Proof.
  assert (XY : forall a b,
    Wave.rotateXY (Wave.rotateXY (fin4 x y z w) (Fin a)) (Fin b)
    = Wave.rotateXY (fin4 x y z w) (Fin (a + b))).
  { intros a b. rewrite !rotateXY_fin. unfold fin4.
    rewrite cos_plus, sin_plus. f_equal; f_equal; ring. }
  assert (ZW : forall a b,
    Wave.rotateZW (Wave.rotateZW (fin4 x y z w) (Fin a)) (Fin b)
    = Wave.rotateZW (fin4 x y z w) (Fin (a + b))).
  { intros a b. rewrite !rotateZW_fin. unfold fin4.
    rewrite cos_plus, sin_plus. f_equal; f_equal; ring. }
  assert (HPI : PI / 2 + PI / 2 = PI) by lra.
  split; [apply XY |]. split; [apply ZW |].
  split; [rewrite XY, HPI; reflexivity | rewrite ZW, HPI; reflexivity].
Qed.

Lemma color_field_unit_interval_witness :
  exists r g b i,
    Wave.vColor (Wave.main (Wave.rest_uniforms (Fin 0.15)) (fin4 1 (-1) 1 (-1))) = fin3 r g b
    /\ Wave.vIntensity (Wave.main (Wave.rest_uniforms (Fin 0.15)) (fin4 1 (-1) 1 (-1))) = Fin i
    /\ 0 <= r <= 1 /\ 0 <= g <= 1 /\ 0 <= b <= 1 /\ 0 <= i <= 1.
Proof.
  apply (color_field_unit_interval (Wave.rest_uniforms (Fin 0.15)) (fin4 1 (-1) 1 (-1)));
    reflexivity.
Defined.

Section ProjectionFacts.

Import Wave.

Lemma ndiv_pos_zero (a : R) : 0 < a -> (Fin a / Fin 0)%num = PInf.
Proof.
  intros Ha. unfold ndiv.
  destruct (Req_EM_T 0 0) as [_ | N]; [| exfalso; apply N; reflexivity].
  destruct (Req_EM_T a 0); [lra |].
  unfold inf_of_sign. destruct (Rlt_dec 0 a); [reflexivity | lra].
Qed.

Lemma scale_inf_pos (s : bool) (r : R) :
  0 < r -> scale_inf s r = if s then PInf else NInf.
Proof.
  intros Hr. unfold scale_inf.
  destruct (Req_EM_T r 0); [lra |].
  destruct (Rlt_dec 0 r); [reflexivity | lra].
Qed.

Lemma main_wFactor (u : Uniforms) (base : vec4) :
  wFactor (main u base)
  = (Fin 1 + vw (pos4D (main u base)) * projectionFactor u)%num.
Proof. reflexivity. Qed.

Lemma main_pos3D (u : Uniforms) (base : vec4) :
  pos3D (main u base)
  = scale3 (div3 (mk3 (vx (pos4D (main u base))) (vy (pos4D (main u base)))
                      (vz (pos4D (main u base))))
                 (wFactor (main u base)))
           (spread u).
Proof. reflexivity. Qed.

Lemma main_gl_Position (u : Uniforms) (base : vec4) :
  gl_Position (main u base)
  = mulMV (projectionMatrix u)
      (mulMV (modelViewMatrix u)
         (mk4 (x3 (pos3D (main u base))) (y3 (pos3D (main u base)))
              (z3 (pos3D (main u base))) (Fin 1))).
Proof. reflexivity. Qed.

(** At the pole the division is carried out: nothing finite is left in
    the projected position, nor in what is written to [gl_Position]. *)
Lemma main_pole_not_finite (u : Uniforms) (base : vec4) :
  wFactor (main u base) = Fin 0 ->
  is_finite (x3 (pos3D (main u base))) = false
  /\ is_finite (y3 (pos3D (main u base))) = false
  /\ is_finite (z3 (pos3D (main u base))) = false
  /\ is_finite (vx (gl_Position (main u base))) = false
  /\ is_finite (vy (gl_Position (main u base))) = false
  /\ is_finite (vz (gl_Position (main u base))) = false
  /\ is_finite (vw (gl_Position (main u base))) = false.
Proof.
  intros H.
  assert (X : is_finite (x3 (pos3D (main u base))) = false).
  { rewrite main_pos3D, H. cbn [scale3 div3 x3].
    apply nmul_not_finite_l, ndiv_by_zero_not_finite. }
  split; [exact X |].
  split. { rewrite main_pos3D, H. cbn [scale3 div3 y3].
           apply nmul_not_finite_l, ndiv_by_zero_not_finite. }
  split. { rewrite main_pos3D, H. cbn [scale3 div3 z3].
           apply nmul_not_finite_l, ndiv_by_zero_not_finite. }
  rewrite main_gl_Position.
  apply mulMV_not_finite.
  apply (mulMV_not_finite (modelViewMatrix u)). exact X.
Qed.

End ProjectionFacts.

(** C4, as the code has it.  When the projection denominator is zero the
    shader still divides: every component of the projected position and
    of [gl_Position] is non-finite.  The colour and the intensity do not
    involve the denominator and stay in [[0, 1]]. *)
Theorem projection_pole_unguarded (u : Wave.Uniforms) (base : vec4) :
  Wave.wFactor (Wave.main u base) = Fin 0 ->
  finite4 (Wave.pos4D (Wave.main u base)) = true ->
  is_finite (Wave.time u) = true ->
  is_finite (Wave.colorAnimationSpeed u) = true ->
  (is_finite (x3 (Wave.pos3D (Wave.main u base))) = false
   /\ is_finite (y3 (Wave.pos3D (Wave.main u base))) = false
   /\ is_finite (z3 (Wave.pos3D (Wave.main u base))) = false
   /\ is_finite (vx (Wave.gl_Position (Wave.main u base))) = false
   /\ is_finite (vy (Wave.gl_Position (Wave.main u base))) = false
   /\ is_finite (vz (Wave.gl_Position (Wave.main u base))) = false
   /\ is_finite (vw (Wave.gl_Position (Wave.main u base))) = false)
  /\ exists r g b i,
       Wave.vColor (Wave.main u base) = fin3 r g b
       /\ Wave.vIntensity (Wave.main u base) = Fin i
       /\ 0 <= r <= 1 /\ 0 <= g <= 1 /\ 0 <= b <= 1 /\ 0 <= i <= 1.
Proof.
  intros H Hp Ht Hs. split.
  - apply main_pole_not_finite. exact H.
  - apply main_color_bounds; assumption.
Qed.

Lemma pole_wFactor :
  Wave.wFactor (Wave.main (Wave.rest_uniforms (Fin 1)) (fin4 1 1 1 (-1))) = Fin 0.
Proof.
  rewrite main_wFactor.
  rewrite (main_pos4D_identity _ 1 1 1 (-1) 0.5) by reflexivity.
  cbn. f_equal. lra.
Qed.

Lemma projection_pole_unguarded_witness :
  is_finite (x3 (Wave.pos3D (Wave.main (Wave.rest_uniforms (Fin 1)) (fin4 1 1 1 (-1)))))
  = false.
Proof.
  refine (proj1 (proj1 (projection_pole_unguarded
                          (Wave.rest_uniforms (Fin 1)) (fin4 1 1 1 (-1)) _ _ _ _))).
  - exact pole_wFactor.
  - reflexivity.
  - reflexivity.
  - reflexivity.
Defined.

(** C4, counterexample.  The lattice point (1, 1, 1, -1) under identity
    matrices, no rotation and projection factor 1 has denominator zero,
    and the position handed on is (+inf, +inf, +inf): it is neither
    skipped nor replaced by a finite value. *)
Lemma projection_pole_emits_infinity :
  Wave.wFactor (Wave.main (Wave.rest_uniforms (Fin 1)) (fin4 1 1 1 (-1))) = Fin 0
  /\ Wave.pos3D (Wave.main (Wave.rest_uniforms (Fin 1)) (fin4 1 1 1 (-1)))
     = mk3 PInf PInf PInf
  /\ finite4 (Wave.gl_Position (Wave.main (Wave.rest_uniforms (Fin 1)) (fin4 1 1 1 (-1))))
     = false.
Proof.
  split; [exact pole_wFactor |]. split.
  - rewrite main_pos3D, pole_wFactor.
    rewrite (main_pos4D_identity _ 1 1 1 (-1) 0.5) by reflexivity.
    unfold fin4, div3, scale3. cbn [vx vy vz x3 y3 z3 Wave.spread Wave.rest_uniforms].
    rewrite ndiv_pos_zero by lra. cbn [nmul].
    rewrite scale_inf_pos by lra. reflexivity.
  - destruct (main_pole_not_finite _ _ pole_wFactor) as (_ & _ & _ & G & _).
    unfold finite4. rewrite G. reflexivity.
Qed.

(* ===================================================================== *)
(** ** The reflection model *)
(* ===================================================================== *)

Section IndraFacts.

Import Indra.

Lemma nmul_nan_r (a : num) : (a * NaN)%num = NaN.
Proof. destruct a; reflexivity. Qed.

Lemma nadd_nan_r (a : num) : (a + NaN)%num = NaN.
Proof. destruct a; reflexivity. Qed.

Lemma nlt_fin_false (a b : R) : b <= a -> (Fin a <? Fin b)%num = false.
Proof. intros H. simpl. destruct (Rlt_dec a b); [lra | reflexivity]. Qed.

Lemma nlt_fin_inv (a b : R) : (Fin a <? Fin b)%num = false -> b <= a.
Proof. simpl. destruct (Rlt_dec a b); [discriminate | lra]. Qed.

Lemma sum_squares_pos (x y z : R) :
  (x, y, z) <> (0, 0, 0) -> 0 < x * x + y * y + z * z.
Proof.
  intros H.
  destruct (Req_dec x 0) as [-> | Hx].
  - destruct (Req_dec y 0) as [-> | Hy].
    + destruct (Req_dec z 0) as [-> | Hz]; [contradiction H; reflexivity | nra].
    + nra.
  - nra.
Qed.

Lemma length3_fin (x y z : R) :
  length3 (fin3 x y z) = Fin (sqrt (x * x + y * y + z * z)).
Proof.
  unfold length3, dot3, fin3. cbn [x3 y3 z3 nmul nadd].
  apply nsqrt_fin. nra.
Qed.

Lemma normalize_fin (x y z : R) :
  (x, y, z) <> (0, 0, 0) ->
  exists a b c, normalize (fin3 x y z) = fin3 a b c.
Proof.
  intros H. unfold normalize. rewrite length3_fin.
  assert (sqrt (x * x + y * y + z * z) <> 0).
  { apply Rgt_not_eq, sqrt_lt_R0, sum_squares_pos, H. }
  unfold div3, fin3. cbn [x3 y3 z3]. rewrite !ndiv_fin by assumption.
  eauto.
Qed.

Lemma normalize_zero : normalize (fin3 0 0 0) = mk3 NaN NaN NaN.
Proof.
  unfold normalize. rewrite length3_fin.
  replace (0 * 0 + 0 * 0 + 0 * 0) with 0 by lra. rewrite sqrt_0.
  unfold div3, fin3. cbn [x3 y3 z3]. rewrite ndiv_zero_zero. reflexivity.
Qed.

Lemma sub3_self (x y z : R) : sub3 (fin3 x y z) (fin3 x y z) = fin3 0 0 0.
Proof.
  unfold sub3, fin3, nsub. cbn [x3 y3 z3 nneg nadd]. rewrite !Rplus_opp_r. reflexivity.
Qed.

(** The direction of a finite vector: a finite vector, or NaN in every
    component when the vector is zero. *)
Lemma normalize_cases (x y z : R) :
  normalize (fin3 x y z) = mk3 NaN NaN NaN
  \/ exists a b c, normalize (fin3 x y z) = fin3 a b c.
Proof.
  destruct (Req_dec x 0) as [-> | Hx];
    [destruct (Req_dec y 0) as [-> | Hy];
       [destruct (Req_dec z 0) as [-> | Hz] | ] | ];
    [left; apply normalize_zero | | | ];
    right; apply normalize_fin; intros Q; injection Q; intros; lra.
Qed.

Lemma nmul_nan_l (a : num) : (NaN * a)%num = NaN.
Proof. destruct a; reflexivity. Qed.

Lemma nadd_nan_l (a : num) : (NaN + a)%num = NaN.
Proof. destruct a; reflexivity. Qed.

Lemma dot3_nan_l (v : vec3) : dot3 (mk3 NaN NaN NaN) v = NaN.
Proof. unfold dot3. cbn [x3 y3 z3]. rewrite !nmul_nan_l. reflexivity. Qed.

Lemma dot3_nan_r (v : vec3) : dot3 v (mk3 NaN NaN NaN) = NaN.
Proof.
  unfold dot3. cbn [x3 y3 z3]. rewrite !nmul_nan_r, nadd_nan_l. reflexivity.
Qed.

Lemma reflect_nan (n : vec3) : reflect (mk3 NaN NaN NaN) n = mk3 NaN NaN NaN.
Proof. unfold reflect, sub3, nsub. cbn [x3 y3 z3]. rewrite !nadd_nan_l. reflexivity. Qed.

(** The specular base [max(dot(reflectDir, viewDir), 0.0)] is a finite
    number that is not negative, also when the light or the view has no
    direction. *)
Lemma specular_base (dx dy dz nx ny nz : R) (w : vec3) :
  (w = mk3 NaN NaN NaN \/ exists a b c, w = fin3 a b c) ->
  exists m,
    gl_max (dot3 (reflect (neg3 (normalize (fin3 dx dy dz))) (fin3 nx ny nz)) w) (Fin 0)
    = Fin m
    /\ 0 <= m.
Proof.
  intros Hw.
  destruct (normalize_cases dx dy dz) as [-> | (a & b & c & ->)].
  - change (neg3 (mk3 NaN NaN NaN)) with (mk3 NaN NaN NaN).
    rewrite reflect_nan, dot3_nan_l. exists 0. split; [reflexivity | lra].
  - destruct Hw as [-> | (x & y & z & ->)].
    + rewrite dot3_nan_r. exists 0. split; [reflexivity | lra].
    + unfold reflect, neg3, sub3, scale3, dot3, fin3, nsub.
      cbn [x3 y3 z3 nneg nadd nmul]. apply gl_max_fin_zero.
Qed.

(** With no intensity a light adds nothing, wherever it is. *)
Lemma lightReflection_dark (l c p n : R * R * R) (w : vec3) :
  (w = mk3 NaN NaN NaN \/ exists a b c, w = fin3 a b c) ->
  lightReflection (of_triple l) (of_triple c) (of_triple p) (of_triple n) w (Fin 0)
  = fin3 0 0 0.
Proof.
  destruct l as [[lx ly] lz], c as [[cx cy] cz], p as [[px py] pz],
           n as [[nx ny] nz].
  intros Hw. unfold lightReflection, of_triple. cbn [fst snd].
  assert (E : sub3 (fin3 lx ly lz) (fin3 px py pz) = fin3 (lx - px) (ly - py) (lz - pz))
    by reflexivity.
  rewrite E.
  destruct (specular_base (lx - px) (ly - py) (lz - pz) nx ny nz w Hw) as (m & -> & Hm).
  rewrite gl_pow_fin by assumption.
  rewrite length3_fin.
  set (s := sqrt _).
  assert (0 <= s) by apply sqrt_pos.
  unfold scale3, fin3. cbn [x3 y3 z3 nadd nmul].
  rewrite ndiv_fin by nra.
  cbn [nmul]. unfold Rdiv. f_equal; f_equal; ring.
Qed.

Lemma centerDist_fin (a b : R) :
  centerDist (mk2 (Fin a) (Fin b))
  = Fin (sqrt ((a - 0.5) * (a - 0.5) + (b - 0.5) * (b - 0.5))).
Proof.
  unfold centerDist, length2, dot2, nsub. cbn [x2 y2 nneg nadd nmul].
  apply nsqrt_fin.
  pose proof (Rle_0_sqr (a - 0.5)). pose proof (Rle_0_sqr (b - 0.5)).
  unfold Rsqr, Rminus in *. lra.
Qed.

Lemma centerDist_center : centerDist (mk2 (Fin 0.5) (Fin 0.5)) = Fin 0.
Proof.
  rewrite centerDist_fin.
  replace ((0.5 - 0.5) * (0.5 - 0.5) + (0.5 - 0.5) * (0.5 - 0.5)) with 0 by lra.
  rewrite sqrt_0. reflexivity.
Qed.

Lemma discarded_center : discarded (mk2 (Fin 0.5) (Fin 0.5)) = false.
Proof.
  unfold discarded. cbv zeta. rewrite centerDist_center.
  rewrite nlt_fin_false by lra.
  unfold dot2, nsub. cbn [x2 y2 nneg nadd nmul orb].
  apply nlt_fin_false. lra.
Qed.

(** The colour [main] gives a fragment when no light has any intensity. *)
Lemma main_dark (pcx pcy sharp opac strength : R) (p v l1 l2 l3 c1 c2 c3 : R * R * R) :
  let pc := mk2 (Fin pcx) (Fin pcy) in
  let d := sqrt ((pcx - 0.5) * (pcx - 0.5) + (pcy - 0.5) * (pcy - 0.5)) in
  let g := (1 - d * 2) ^ 16 in
  option_map rgb (main (fragment pcx pcy sharp opac strength 0 p v l1 l2 l3 c1 c2 c3))
  = (if discarded pc then None else Some (ambient pc))
  /\ (discarded pc = false ->
      ambient pc = fin3 (0.9 * 0.15 + 0.9 * g * 0.8) (0.9 * 0.15 + 0.9 * g * 0.8)
                        (0.95 * 0.15 + 0.95 * g * 0.8)).
Proof.
  intros pc d g. subst pc.
  assert (A : discarded (mk2 (Fin pcx) (Fin pcy)) = false ->
              ambient (mk2 (Fin pcx) (Fin pcy))
              = fin3 (0.9 * 0.15 + 0.9 * g * 0.8) (0.9 * 0.15 + 0.9 * g * 0.8)
                     (0.95 * 0.15 + 0.95 * g * 0.8)).
  { unfold discarded. cbv zeta. rewrite centerDist_fin. fold d.
    intros D. apply orb_false_elim in D as [D _]. apply nlt_fin_inv in D.
    unfold ambient, centerGlow. rewrite centerDist_fin. fold d.
    unfold nsub. cbn [nneg nadd nmul].
    rewrite gl_pow_fin by lra.
    unfold mirrorBase, add3, scale3, fin3. cbn [x3 y3 z3 nadd nmul].
    subst g. f_equal; f_equal; ring. }
  split; [| exact A].
  destruct (discarded (mk2 (Fin pcx) (Fin pcy))) eqn:D.
  - unfold discarded in D. cbv zeta in D.
    unfold main, fragment. cbn [gl_PointCoord]. cbv zeta.
    destruct (Fin 0.5 <? centerDist (mk2 (Fin pcx) (Fin pcy)))%num; [reflexivity |].
    cbn [orb] in D. rewrite D. reflexivity.
  - rewrite (A eq_refl).
    unfold discarded in D. cbv zeta in D. apply orb_false_elim in D as [D1 D2].
    unfold main, fragment.
    cbn [gl_PointCoord sharpness opacity reflectionStrength lightIntensity vPosition
         vViewPosition vLightPos1 vLightPos2 vLightPos3
         vLightColor1 vLightColor2 vLightColor3].
    cbv zeta. rewrite D1, D2.
    rewrite centerDist_fin in D1. fold d in D1. apply nlt_fin_inv in D1.
    unfold dot2, nsub in D2 |- *. cbn [x2 y2 nneg nadd nmul] in D2 |- *.
    apply nlt_fin_inv in D2.
    rewrite nsqrt_fin by lra.
    change (mk3 (Fin ?x) (Fin ?y) (Fin ?z)) with (of_triple (x, y, z)).
    assert (W : normalize (of_triple v) = mk3 NaN NaN NaN
                \/ exists a b c, normalize (of_triple v) = fin3 a b c).
    { destruct v as [[vx' vy'] vz']. apply normalize_cases. }
    rewrite !lightReflection_dark by exact W.
    unfold centerGlow. rewrite centerDist_fin. fold d.
    unfold nsub. cbn [nneg nadd nmul].
    rewrite gl_pow_fin by lra.
    unfold mirrorBase, add3, mul3, scale3, of_triple, fin3.
    cbn [x3 y3 z3 fst snd nadd nmul option_map rgb].
    subst g. f_equal. f_equal; f_equal; ring.
Qed.

End IndraFacts.

(** C7.  With [lightIntensity = 0], for every finite particle position,
    view vector, light positions and light colours, a fragment that is
    not discarded gets exactly the ambient colour: the mirror base tint
    [0.15 * mirrorBase] plus the centre glow
    [0.8 * (1 - 2 * dist) ^ 16 * mirrorBase].  The colour is the same for
    all light positions.  A light at the particle position or a zero
    view vector has no direction ([normalize] divides zero by zero); its
    specular base [max(NaN, 0.0)] is then 0, the attenuation is 0, and
    the light adds nothing. *)
Theorem reflection_zero_intensity
    (pcx pcy sharp opac strength : R) (p v l1 l2 l3 c1 c2 c3 : R * R * R) :
  let i := Indra.fragment pcx pcy sharp opac strength 0 p v l1 l2 l3 c1 c2 c3 in
  let d := sqrt ((pcx - 0.5) * (pcx - 0.5) + (pcy - 0.5) * (pcy - 0.5)) in
  let g := (1 - d * 2) ^ 16 in
  option_map Indra.rgb (Indra.main i)
  = (if Indra.discarded (Indra.gl_PointCoord i) then None
     else Some (Indra.ambient (Indra.gl_PointCoord i)))
  /\ option_map Indra.rgb (Indra.main i)
     = (if Indra.discarded (Indra.gl_PointCoord i) then None
        else Some (fin3 (0.9 * 0.15 + 0.9 * g * 0.8) (0.9 * 0.15 + 0.9 * g * 0.8)
                        (0.95 * 0.15 + 0.95 * g * 0.8)))
  /\ (forall l1' l2' l3' : R * R * R,
        option_map Indra.rgb
          (Indra.main (Indra.fragment pcx pcy sharp opac strength 0 p v l1' l2' l3' c1 c2 c3))
        = option_map Indra.rgb (Indra.main i)).
Proof.
  intros i d g. subst i.
  change (Indra.gl_PointCoord (Indra.fragment _ _ _ _ _ _ _ _ _ _ _ _ _ _))
    with (mk2 (Fin pcx) (Fin pcy)).
  destruct (main_dark pcx pcy sharp opac strength p v l1 l2 l3 c1 c2 c3) as [M A].
  cbv zeta in M, A. fold d g in A.
  split; [exact M |]. split.
  - rewrite M. destruct (Indra.discarded (mk2 (Fin pcx) (Fin pcy)));
      [reflexivity | rewrite (A eq_refl); reflexivity].
  - intros l1' l2' l3'. rewrite M.
    apply (main_dark pcx pcy sharp opac strength p v l1' l2' l3' c1 c2 c3).
Qed.

(** The fragment at the centre of a point whose first light sits on the
    particle and whose view vector is zero: the ambient colour. *)
Lemma reflection_zero_intensity_witness :
  option_map Indra.rgb
    (Indra.main (Indra.fragment 0.5 0.5 1 1 2.5 0 (0, 0, 0) (0, 0, 0)
                   (0, 0, 0) (0, 8, 0) (0, 0, 8)
                   (1, 0.2, 0.2) (0.2, 1, 0.2) (0.2, 0.2, 1)))
  = Some (Indra.ambient (mk2 (Fin 0.5) (Fin 0.5))).
Proof.
  pose proof (proj1 (reflection_zero_intensity 0.5 0.5 1 1 2.5 (0, 0, 0) (0, 0, 0)
                       (0, 0, 0) (0, 8, 0) (0, 0, 8)
                       (1, 0.2, 0.2) (0.2, 1, 0.2) (0.2, 0.2, 1))) as H.
  change (Indra.gl_PointCoord (Indra.fragment _ _ _ _ _ _ _ _ _ _ _ _ _ _))
    with (mk2 (Fin 0.5) (Fin 0.5)) in H.
  rewrite discarded_center in H.
  exact H.
Defined.

(* ===================================================================== *)
(** ** The parameter store *)
(* ===================================================================== *)

Section AppFacts.

Import App.

Lemma touches_only_refl (keys : list string) (st : State) : touches_only keys st st.
Proof. repeat split. Qed.

Lemma touches_only_trans (keys : list string) (a b c : State) :
  touches_only keys a b -> touches_only keys b c -> touches_only keys a c.
Proof.
  intros (P1 & X1 & Z1 & U1) (P2 & X2 & Z2 & U2).
  repeat split; try congruence.
  intros k Hk. rewrite U2, U1 by assumption. reflexivity.
Qed.

Lemma touches_only_weaken (keys keys' : list string) (st st' : State) :
  keys ⊆ keys' -> touches_only keys st st' -> touches_only keys' st st'.
Proof.
  intros Hsub (P & X & Z & U). repeat split; try assumption.
  intros k Hk. apply U. intros Hin. apply Hk, Hsub, Hin.
Qed.

Lemma updateMatrixUniform_touches (k : string) (st : State) :
  touches_only [k] st (updateMatrixUniform k st).1.
Proof.
  unfold updateMatrixUniform, bind, read, modify, lift, ret, throw.
  destruct (bool_decide (is_Some (uniforms st !! k))); [| apply touches_only_refl].
  destruct (fromArray (get (params st) k)); cbn; [| apply touches_only_refl].
  repeat split. intros k' Hk'. cbn. apply lookup_insert_ne.
  intros ->. apply Hk'. apply list_elem_of_singleton. reflexivity.
Qed.

Lemma updateValueUniform_touches (k : string) (st : State) :
  touches_only [k] st (updateValueUniform k st).1.
Proof.
  unfold updateValueUniform, bind, read, modify, ret.
  destruct (bool_decide (is_Some (uniforms st !! k))); cbn; [| apply touches_only_refl].
  repeat split. intros k' Hk'. cbn. apply lookup_insert_ne.
  intros ->. apply Hk'. apply list_elem_of_singleton. reflexivity.
Qed.

Lemma bind_touches {A B} (keys : list string) (m : M A) (f : A -> M B) (st : State) :
  (forall s, touches_only keys s (m s).1) ->
  (forall a s, touches_only keys s (f a s).1) ->
  touches_only keys st (bind m f st).1.
Proof.
  intros Hm Hf. unfold bind. specialize (Hm st).
  destruct (m st) as [st' [a |]]; cbn in *; [| assumption].
  eapply touches_only_trans; [exact Hm | apply Hf].
Qed.

Lemma updateShaderUniforms_touches (st : State) :
  touches_only transform_keys st (updateShaderUniforms st).1.
Proof.
  unfold updateShaderUniforms, transform_keys.
  apply bind_touches.
  - intros s. eapply touches_only_weaken; [| apply updateMatrixUniform_touches].
    intros k Hk. apply list_elem_of_singleton in Hk as ->. set_solver.
  - intros _ s. apply bind_touches.
    + intros s'. eapply touches_only_weaken; [| apply updateMatrixUniform_touches].
      intros k Hk. apply list_elem_of_singleton in Hk as ->. set_solver.
    + intros _ s'. eapply touches_only_weaken; [| apply updateValueUniform_touches].
      intros k Hk. apply list_elem_of_singleton in Hk as ->. set_solver.
Qed.

Lemma bind_keeps_params {A B} (m : M A) (f : A -> M B) :
  keeps_params m -> (forall a, keeps_params (f a)) -> keeps_params (bind m f).
Proof.
  intros Hm Hf st. unfold bind. specialize (Hm st).
  destruct (m st) as [st' [a |]]; cbn in *; [| assumption].
  rewrite Hf. assumption.
Qed.

Lemma lift_keeps_params {A} (o : option A) : keeps_params (lift o).
Proof. intros st. destruct o; reflexivity. Qed.

Lemma read_keeps_params {A} (f : State -> A) : keeps_params (read f).
Proof. intros st. reflexivity. Qed.

Lemma updateShaderUniforms_keeps_params : keeps_params updateShaderUniforms.
Proof. intros st. apply (updateShaderUniforms_touches st). Qed.

Lemma recreateParticleSystem_keeps_params : keeps_params recreateParticleSystem.
Proof.
  unfold recreateParticleSystem.
  apply bind_keeps_params; [apply read_keeps_params |]. intros p.
  apply bind_keeps_params; [apply lift_keeps_params |]. intros u st. reflexivity.
Qed.

Lemma createGUI_keeps_params : keeps_params createGUI.
Proof.
  unfold createGUI.
  apply bind_keeps_params; [apply read_keeps_params |]. intros p.
  apply bind_keeps_params; [apply lift_keeps_params |]. intros _.
  apply bind_keeps_params; [apply lift_keeps_params |]. intros _ st. reflexivity.
Qed.

(** After the first statement of the [try] block, nothing writes
    [params] any more, and the [catch] block restores nothing. *)
Lemma importParameters_params (d : jsval) (st : State) :
  params (importParameters (Some d) st).1 = object_assign (params st) d.
Proof.
  unfold importParameters.
  set (rest := (updateShaderUniforms ;; recreateParticleSystem ;; createGUI)).
  assert (K : keeps_params rest).
  { unfold rest. apply bind_keeps_params; [apply updateShaderUniforms_keeps_params |].
    intros _. apply bind_keeps_params; [apply recreateParticleSystem_keeps_params |].
    intros _. apply createGUI_keeps_params. }
  unfold bind at 1. unfold modify at 1.
  specialize (K (set_params (fun p => object_assign p d) st)).
  destruct (rest _) as [st' [r |]]; cbn in *; exact K.
Qed.

End AppFacts.

(** C10.  [resetRotation] sets both accumulated angles to zero, both
    matrices to the identity (the array of sixteen numbers with 1 at
    positions 0, 5, 10 and 15 and 0 elsewhere) and the interpolation
    fraction to 0.5, and leaves every other parameter as it was; of the
    shader uniforms only those of the two matrices and the interpolation
    can change. *)
Theorem resetRotation_frame (st : App.State) :
  let st' := App.resetRotation st in
  let n (r : R) := App.JNum (Fin r) in
  let identity :=
    App.JArr [ n 1; n 0; n 0; n 0;
               n 0; n 1; n 0; n 0;
               n 0; n 0; n 1; n 0;
               n 0; n 0; n 0; n 1 ] in
  let changed := ["matrix1"; "matrix2"; "interpolation"]%string in
  App.angleXY st' = Fin 0
  /\ App.angleZW st' = Fin 0
  /\ App.params st' !! "matrix1"%string = Some identity
  /\ App.params st' !! "matrix2"%string = Some identity
  /\ App.params st' !! "interpolation"%string = Some (App.JNum (Fin 0.5))
  /\ (forall k, k ∉ changed -> App.params st' !! k = App.params st !! k)
  /\ (forall k, k ∉ changed -> App.uniforms st' !! k = App.uniforms st !! k)
  /\ App.createIdentityMatrix = identity.
Proof.
  intros st' n identity changed. subst st' identity changed. unfold App.resetRotation.
  cbv beta iota zeta delta [App.bind App.modify].
  match goal with
  | |- context [App.updateShaderUniforms ?s] =>
      destruct (updateShaderUniforms_touches s) as (P & X & Z & U);
      set (st' := (App.updateShaderUniforms s).1) in *
  end.
  cbn in P, X, Z, U.
  split; [exact X |]. split; [exact Z |].
  rewrite P.
  split.
  { rewrite lookup_insert_ne by discriminate.
    rewrite lookup_insert_ne by discriminate.
    apply lookup_insert_eq. }
  split.
  { rewrite lookup_insert_ne by discriminate. apply lookup_insert_eq. }
  split.
  { apply lookup_insert_eq. }
  split.
  { intros k Hk.
    rewrite !lookup_insert_ne; [reflexivity | | |]; intros <-; apply Hk; set_solver. }
  split; [exact U | reflexivity].
Qed.

(** C5, as the code has it.  A text that [JSON.parse] rejects leaves the
    whole state unchanged and the failure is reported.  A parsed
    document is not validated: [params] becomes the result of
    [Object.assign(params, data)] whether the rest of the import
    succeeds or fails. *)
Theorem importParameters_unvalidated (st : App.State) :
  App.importParameters None st = (st, App.ImportError)
  /\ forall d : App.jsval,
       App.params (App.importParameters (Some d) st).1
       = App.object_assign (App.params st) d.
Proof.
  split; [reflexivity |]. intros d. apply importParameters_params.
Qed.

(** C5, counterexample.  Two malformed documents imported into the
    initial state: [{"gridSize": "many"}] is stored and reported as
    imported; [{"gridSize": 3, "matrix1": null}] is reported as an error
    after [gridSize] has been overwritten. *)
Lemma importParameters_malformed_applied :
  let doc1 := Some (App.JObj [("gridSize"%string, App.JStr "many")]) in
  let doc2 := Some (App.JObj [("gridSize"%string, App.JNum (Fin 3));
                              ("matrix1"%string, App.JNull)]) in
  App.params App.initial_state !! "gridSize"%string = Some (App.JNum (Fin 10))
  /\ App.malformed doc1 = true
  /\ (App.importParameters doc1 App.initial_state).2 = App.Imported
  /\ App.params (App.importParameters doc1 App.initial_state).1 !! "gridSize"%string
     = Some (App.JStr "many")
  /\ App.malformed doc2 = true
  /\ (App.importParameters doc2 App.initial_state).2 = App.ImportError
  /\ App.params (App.importParameters doc2 App.initial_state).1 !! "gridSize"%string
     = Some (App.JNum (Fin 3)).
Proof.
  cbv zeta. repeat split; vm_compute; reflexivity.
Qed.

(* ===================================================================== *)
(** ** Further properties of the lattices *)
(* ===================================================================== *)

Section Lattice3D.

Import Lattice Particles.

Variable n : Z.
Local Abbreviation N := (Z.to_nat n).

Lemma length_createIndrasNetParticles :
  length (createIndrasNetParticles n) = (N * (N * (N * 3)))%nat.
Proof.
  unfold createIndrasNetParticles.
  rewrite (length_flat_map_blocks _ (N * (N * 3))), length_range; [reflexivity |].
  intros x. rewrite (length_flat_map_blocks _ (N * 3)), length_range; [reflexivity |].
  intros y. rewrite (length_flat_map_blocks _ 3), length_range; [reflexivity |].
  intros z. reflexivity.
Qed.

Lemma lookup_createIndrasNetParticles (x y z c : nat) :
  (x < N)%nat -> (y < N)%nat -> (z < N)%nat -> (c < 3)%nat ->
  createIndrasNetParticles n !! (x * (N * (N * 3)) + (y * (N * 3) + (z * 3 + c)))%nat
  = [axis3D n (Z.of_nat x); axis3D n (Z.of_nat y); axis3D n (Z.of_nat z)] !! c.
Proof.
  intros Hx Hy Hz Hc. unfold createIndrasNetParticles.
  set (f3 := fun x y z : Z => [axis3D n x; axis3D n y; axis3D n z]).
  assert (B1 : forall x y : Z, forall z, length (f3 x y z) = 3%nat) by reflexivity.
  assert (B2 : forall x : Z, forall y,
    length (flat_map (fun z => f3 x y z) (range n)) = (N * 3)%nat).
  { intros. rewrite (length_flat_map_blocks _ 3), length_range by reflexivity. reflexivity. }
  assert (B3 : forall x : Z,
    length (flat_map (fun y => flat_map (fun z => f3 x y z) (range n)) (range n))
    = (N * (N * 3))%nat).
  { intros. rewrite (length_flat_map_blocks _ (N * 3)), length_range by apply B2. reflexivity. }
  change (flat_map (fun x => flat_map (fun y => flat_map (fun z => f3 x y z) (range n))
                                      (range n)) (range n)
          !! (x * (N * (N * 3)) + (y * (N * 3) + (z * 3 + c)))%nat
          = f3 (Z.of_nat x) (Z.of_nat y) (Z.of_nat z) !! c).
  rewrite (lookup_flat_map_blocks _ _ B3 _ _ _ (Z.of_nat x)); [| apply lookup_range; assumption |].
  2:{ assert (y * (N * 3) <= (N - 1) * (N * 3))%nat by (apply Nat.mul_le_mono_r; lia).
      nia. }
  rewrite (lookup_flat_map_blocks _ _ (B2 _) _ _ _ (Z.of_nat y)); [| apply lookup_range; assumption |].
  2:{ nia. }
  rewrite (lookup_flat_map_blocks _ _ (B1 _ _) _ _ _ (Z.of_nat z)); [| apply lookup_range; assumption |].
  2:{ assumption. }
  reflexivity.
Qed.

Lemma item3_createIndrasNetParticles (x y z : nat) :
  (x < N)%nat -> (y < N)%nat -> (z < N)%nat ->
  item3 (createIndrasNetParticles n) ((x * N + y) * N + z)
  = Some (mk3 (axis3D n (Z.of_nat x)) (axis3D n (Z.of_nat y)) (axis3D n (Z.of_nat z))).
Proof.
  intros Hx Hy Hz. unfold item3.
  pose proof (lookup_createIndrasNetParticles x y z 0 Hx Hy Hz ltac:(lia)) as L0.
  pose proof (lookup_createIndrasNetParticles x y z 1 Hx Hy Hz ltac:(lia)) as L1.
  pose proof (lookup_createIndrasNetParticles x y z 2 Hx Hy Hz ltac:(lia)) as L2.
  replace (3 * ((x * N + y) * N + z))%nat
    with (x * (N * (N * 3)) + (y * (N * 3) + (z * 3 + 0)))%nat by lia.
  replace (x * (N * (N * 3)) + (y * (N * 3) + (z * 3 + 0)) + 1)%nat
    with (x * (N * (N * 3)) + (y * (N * 3) + (z * 3 + 1)))%nat by lia.
  replace (x * (N * (N * 3)) + (y * (N * 3) + (z * 3 + 0)) + 2)%nat
    with (x * (N * (N * 3)) + (y * (N * 3) + (z * 3 + 2)))%nat by lia.
  rewrite L0, L1, L2. reflexivity.
Qed.

Lemma In_createIndrasNetParticles (c : num) :
  In c (createIndrasNetParticles n) ->
  exists x, In x (range n) /\ c = axis3D n x.
Proof.
  unfold createIndrasNetParticles. intros H.
  apply in_flat_map in H as (x & Hx & H).
  apply in_flat_map in H as (y & Hy & H).
  apply in_flat_map in H as (z & Hz & H).
  simpl in H. destruct H as [<- | [<- | [<- | []]]]; eauto.
Qed.

End Lattice3D.

Section LatticeAxes.

Import Lattice.

Lemma axis3D_fin (n x : Z) :
  (2 <= n)%Z -> axis3D n x = Fin ((IZR x / (IZR n - 1) - 0.5) * IZR n * 0.5).
Proof.
  intros Hn. unfold axis3D, spacing, of_Z, nsub. cbn [nneg nadd].
  assert (1 < IZR n) by (apply (IZR_lt 1); lia).
  rewrite ndiv_fin by lra. reflexivity.
Qed.

Lemma axis3D_bounds (n x : Z) :
  (2 <= n)%Z -> (0 <= x <= n - 1)%Z ->
  exists r, axis3D n x = Fin r /\ - (IZR n / 4) <= r <= IZR n / 4.
Proof.
  intros Hn [Hx0 Hx1]. rewrite axis3D_fin by assumption.
  eexists. split; [reflexivity |].
  assert (1 < IZR n) by (apply (IZR_lt 1); lia).
  assert (0 <= IZR x) by (apply (IZR_le 0); assumption).
  assert (IZR x <= IZR n - 1) by (rewrite <- minus_IZR; apply IZR_le; assumption).
  pose proof (ratio_bounds (IZR x) (IZR n - 1) ltac:(lra) ltac:(lra)) as [Q0 Q1].
  set (q := IZR x / (IZR n - 1)) in *. split; nra.
Qed.

Lemma axis4D_inj (n x y : Z) :
  (2 <= n)%Z -> axis4D n x = axis4D n y -> x = y.
Proof.
  intros Hn. rewrite !axis4D_fin by assumption. intros E. injection E as E.
  assert (1 < IZR n) by (apply (IZR_lt 1); lia).
  apply eq_IZR.
  assert (Q : IZR x / (IZR n - 1) = IZR y / (IZR n - 1)) by lra.
  unfold Rdiv in Q. apply Rmult_eq_reg_r in Q; [assumption |].
  apply Rinv_neq_0_compat. lra.
Qed.

(** The digits of an index below [N^4], most significant first. *)
Lemma digits4 (N i : nat) :
  (i < N ^ 4)%nat ->
  let x := (i / N ^ 3)%nat in
  let y := ((i / N ^ 2) mod N)%nat in
  let z := ((i / N) mod N)%nat in
  let w := (i mod N)%nat in
  (x < N)%nat /\ (y < N)%nat /\ (z < N)%nat /\ (w < N)%nat
  /\ i = (((x * N + y) * N + z) * N + w)%nat.
Proof.
  intros Hi x y z w.
  assert (HN : (0 < N)%nat) by (destruct N; [simpl in Hi; lia | lia]).
  assert (Hw : (w < N)%nat) by (apply Nat.mod_upper_bound; lia).
  assert (Hz : (z < N)%nat) by (apply Nat.mod_upper_bound; lia).
  assert (Hy : (y < N)%nat) by (apply Nat.mod_upper_bound; lia).
  assert (Hx : (x < N)%nat).
  { apply Nat.Div0.div_lt_upper_bound.
    replace (N ^ 3 * N)%nat with (N ^ 4)%nat by (simpl; lia). assumption. }
  repeat (split; [assumption |]).
  pose proof (Nat.div_mod_eq i N) as E1.
  pose proof (Nat.div_mod_eq (i / N) N) as E2.
  pose proof (Nat.div_mod_eq (i / N ^ 2) N) as E3.
  assert (D2 : (i / N / N = i / N ^ 2)%nat).
  { rewrite Nat.Div0.div_div. f_equal. simpl. lia. }
  assert (D3 : (i / N ^ 2 / N = i / N ^ 3)%nat).
  { rewrite Nat.Div0.div_div. f_equal. simpl. lia. }
  rewrite D2 in E2. rewrite D3 in E3.
  fold w in E1. fold z in E2. fold y in E3. fold x in E3.
  rewrite E3 in E2. rewrite E2 in E1. rewrite E1 at 1. lia.
Qed.

(** The digits of an index below [N^3]. *)
Lemma digits3 (N i : nat) :
  (i < N ^ 3)%nat ->
  let x := (i / N ^ 2)%nat in
  let y := ((i / N) mod N)%nat in
  let z := (i mod N)%nat in
  (x < N)%nat /\ (y < N)%nat /\ (z < N)%nat /\ i = ((x * N + y) * N + z)%nat.
Proof.
  intros Hi x y z.
  assert (HN : (0 < N)%nat) by (destruct N; [simpl in Hi; lia | lia]).
  assert (Hz : (z < N)%nat) by (apply Nat.mod_upper_bound; lia).
  assert (Hy : (y < N)%nat) by (apply Nat.mod_upper_bound; lia).
  assert (Hx : (x < N)%nat).
  { apply Nat.Div0.div_lt_upper_bound.
    replace (N ^ 2 * N)%nat with (N ^ 3)%nat by (simpl; lia). assumption. }
  repeat (split; [assumption |]).
  pose proof (Nat.div_mod_eq i N) as E1.
  pose proof (Nat.div_mod_eq (i / N) N) as E2.
  assert (D2 : (i / N / N = i / N ^ 2)%nat).
  { rewrite Nat.Div0.div_div. f_equal. simpl. lia. }
  rewrite D2 in E2. fold z in E1. fold y in E2. fold x in E2.
  rewrite E2 in E1. rewrite E1 at 1. lia.
Qed.

End LatticeAxes.

(** X1.  For every resolution [n >= 2] the Indra's-net generator
    produces [n^3] positions, every component is a finite number of
    [[-n/4, n/4]], and the position of index [i] has the base-[n] digits
    of [i] as its axis steps, x first. *)
Theorem lattice3D_count_range_order (n : Z) :
  (2 <= n)%Z ->
  let N := Z.to_nat n in
  let arr := Lattice.createIndrasNetParticles n in
  Particles.count3 arr = (N ^ 3)%nat
  /\ (forall c, In c arr -> exists r, c = Fin r /\ - (IZR n / 4) <= r <= IZR n / 4)
  /\ (forall i, (i < N ^ 3)%nat ->
        Particles.item3 arr i
        = Some (mk3 (Lattice.axis3D n (Z.of_nat (i / N ^ 2)))
                    (Lattice.axis3D n (Z.of_nat ((i / N) mod N)))
                    (Lattice.axis3D n (Z.of_nat (i mod N))))).
Proof.
  intros Hn N arr. split; [| split].
  - unfold Particles.count3. subst arr. rewrite length_createIndrasNetParticles. fold N.
    replace (N * (N * (N * 3)))%nat with (N ^ 3 * 3)%nat by (simpl; lia).
    apply Nat.div_mul. discriminate.
  - intros c Hc. subst arr.
    apply In_createIndrasNetParticles in Hc as (x & Hx & ->).
    apply elem_of_range in Hx. apply axis3D_bounds; assumption.
  - intros i Hi. subst arr.
    destruct (digits3 N i Hi) as (Hx & Hy & Hz & E).
    rewrite E at 1. apply item3_createIndrasNetParticles; assumption.
Qed.

Lemma lattice3D_count_range_order_witness :
  Particles.count3 (Lattice.createIndrasNetParticles 2) = 8%nat.
Proof.
  exact (proj1 (lattice3D_count_range_order 2 ltac:(lia))).
Defined.

(** X2.  The axis values of the 4D lattice run from -1 at step 0 to 1 at
    step [n - 1] in equal steps of [2 / (n - 1)], symmetrically about
    zero. *)
Theorem axis4D_evenly_spaced (n x : Z) :
  (2 <= n)%Z ->
  Lattice.axis4D n 0 = Fin (-1)
  /\ Lattice.axis4D n (n - 1) = Fin 1
  /\ (Lattice.axis4D n (x + 1) - Lattice.axis4D n x)%num = Fin (2 / (IZR n - 1))
  /\ Lattice.axis4D n (n - 1 - x) = (- Lattice.axis4D n x)%num.
Proof.
  intros Hn. rewrite !axis4D_fin by assumption.
  assert (1 < IZR n) by (apply (IZR_lt 1); lia).
  unfold nsub. cbn [nneg nadd].
  rewrite !minus_IZR, plus_IZR.
  repeat split; f_equal; field; lra.
Qed.

Lemma axis4D_evenly_spaced_witness :
  Lattice.axis4D 3 1 = (- Lattice.axis4D 3 1)%num.
Proof.
  exact (proj2 (proj2 (proj2 (axis4D_evenly_spaced 3 1 ltac:(lia))))).
Defined.

(** X3.  For [n >= 2] no two particles of the 4D lattice share their
    base coordinate. *)
Theorem lattice4D_coordinates_distinct (n : Z) (i j : nat) :
  (2 <= n)%Z ->
  (i < Z.to_nat n ^ 4)%nat -> (j < Z.to_nat n ^ 4)%nat ->
  i <> j ->
  Lattice.item4 (Lattice.create4DWaveParticles n) i
  <> Lattice.item4 (Lattice.create4DWaveParticles n) j.
Proof.
  intros Hn Hi Hj Hne.
  destruct (digits4 _ i Hi) as (Hx & Hy & Hz & Hw & Ei).
  destruct (digits4 _ j Hj) as (Hx' & Hy' & Hz' & Hw' & Ej).
  rewrite Ei at 1. rewrite Ej at 1.
  rewrite !item4_create4DWaveParticles by assumption.
  intros E. injection E as E1 E2 E3 E4.
  apply axis4D_inj in E1, E2, E3, E4; try assumption.
  apply Nat2Z.inj in E1, E2, E3, E4.
  change (Z.to_nat n * (Z.to_nat n * (Z.to_nat n * 1)))%nat with (Z.to_nat n ^ 3)%nat in E1.
  change (Z.to_nat n * (Z.to_nat n * 1))%nat with (Z.to_nat n ^ 2)%nat in E2.
  apply Hne. congruence.
Qed.

Lemma lattice4D_coordinates_distinct_witness :
  Lattice.item4 (Lattice.create4DWaveParticles 2) 0
  <> Lattice.item4 (Lattice.create4DWaveParticles 2) 1.
Proof.
  apply (lattice4D_coordinates_distinct 2 0 1); [lia | simpl; lia | simpl; lia | lia].
Defined.

(** X4.  For an integer resolution [n >= 0] the particle count that is
    logged, [Math.pow(gridSize, 4)] or [Math.pow(gridSize, 3)], is the
    number of particles created; for a negative integer resolution
    nothing is created although the logged count is not zero.  (A
    resolution that is not an integer is outside this statement.) *)
Theorem particleCount_matches (mode : string) (n : Z) :
  ((0 <= n)%Z ->
     Z.of_nat (Particles.drawn mode (Particles.createParticleSystem mode n))
     = Particles.particleCount mode n)
  /\ ((n < 0)%Z ->
        Particles.drawn mode (Particles.createParticleSystem mode n) = 0%nat
        /\ Particles.particleCount mode n <> 0%Z).
Proof.
  unfold Particles.drawn, Particles.createParticleSystem, Particles.particleCount.
  destruct (String.eqb mode "4d-wave"); split; intros Hn.
  - unfold Lattice.count4. rewrite length_create4DWaveParticles.
    set (N := Z.to_nat n).
    replace (N * (N * (N * (N * 4))))%nat with (N * N * N * N * 4)%nat by lia.
    rewrite Nat.div_mul by discriminate.
    rewrite !Nat2Z.inj_mul. subst N. rewrite Z2Nat.id by assumption. ring.
  - split.
    + unfold Lattice.create4DWaveParticles. rewrite range_nonpositive by lia. reflexivity.
    + apply Z.pow_nonzero; lia.
  - unfold Particles.count3. rewrite length_createIndrasNetParticles.
    set (N := Z.to_nat n).
    replace (N * (N * (N * 3)))%nat with (N * N * N * 3)%nat by lia.
    rewrite Nat.div_mul by discriminate.
    rewrite !Nat2Z.inj_mul. subst N. rewrite Z2Nat.id by assumption. ring.
  - split.
    + unfold Lattice.createIndrasNetParticles. rewrite range_nonpositive by lia. reflexivity.
    + apply Z.pow_nonzero; lia.
Qed.

(* ===================================================================== *)
(** ** Further properties of the 4D-wave vertex shader *)
(* ===================================================================== *)

Section RotationFacts.

Import Wave.

Lemma givens_norm (s c x y : R) :
  s * s + c * c = 1 ->
  (c * x - s * y) * (c * x - s * y) + (s * x + c * y) * (s * x + c * y) = x * x + y * y.
Proof.
  intros H.
  replace ((c * x - s * y) * (c * x - s * y) + (s * x + c * y) * (s * x + c * y))
    with ((s * s + c * c) * (x * x + y * y)) by ring.
  rewrite H. ring.
Qed.

Lemma sin_cos_one (a : R) : sin a * sin a + cos a * cos a = 1.
Proof. pose proof (sin2_cos2 a) as H. unfold Rsqr in H. exact H. Qed.

Lemma length4_fin (x y z w : R) :
  length4 (fin4 x y z w) = Fin (sqrt (x * x + y * y + z * z + w * w)).
Proof.
  unfold length4, dot4, fin4. cbn [vx vy vz vw nmul nadd].
  apply nsqrt_fin.
  pose proof (Rle_0_sqr x). pose proof (Rle_0_sqr y).
  pose proof (Rle_0_sqr z). pose proof (Rle_0_sqr w).
  unfold Rsqr in *. lra.
Qed.

Lemma length4_rotateXY (x y z w a : R) :
  length4 (rotateXY (fin4 x y z w) (Fin a)) = length4 (fin4 x y z w).
Proof.
  rewrite rotateXY_fin, !length4_fin. do 2 f_equal.
  rewrite (givens_norm _ _ _ _ (sin_cos_one a)). reflexivity.
Qed.

Lemma length4_rotateZW (x y z w a : R) :
  length4 (rotateZW (fin4 x y z w) (Fin a)) = length4 (fin4 x y z w).
Proof.
  rewrite rotateZW_fin, !length4_fin. do 2 f_equal.
  pose proof (givens_norm _ _ z w (sin_cos_one a)). lra.
Qed.

Lemma finite4_inv (p : vec4) :
  finite4 p = true -> exists x y z w, p = fin4 x y z w.
Proof.
  destruct p as [px py pz pw]. unfold finite4. cbn [vx vy vz vw]. intros Hp.
  apply andb_prop in Hp as [Hp Hw]. apply andb_prop in Hp as [Hp Hz].
  apply andb_prop in Hp as [Hx Hy].
  apply is_finite_inv in Hx as [x ->], Hy as [y ->], Hz as [z ->], Hw as [w ->].
  exists x, y, z, w. reflexivity.
Qed.

Lemma main_pos4D (u : Uniforms) (base : vec4) :
  pos4D (main u base)
  = rotateZW (rotateXY (mulMV (mixMatrix (matrix1 u) (matrix2 u) (interpolation u)) base)
                       (angleXY u)) (angleZW u).
Proof. reflexivity. Qed.

Lemma main_vIntensity (u : Uniforms) (base : vec4) :
  vIntensity (main u base)
  = (Fin 0.5 + Fin 0.5 * nsin (length4 (pos4D (main u base)) * Fin 0.3
                               - time u * colorAnimationSpeed u))%num.
Proof. reflexivity. Qed.

End RotationFacts.

(** X5.  A plane rotation by a finite angle keeps the sum of squares of
    the rotated pair, leaves the other pair as it is, and so keeps the
    4D length of a finite point. *)
Theorem rotation_preserves_norm (x y z w a : R) :
  let p := fin4 x y z w in
  let q := Wave.rotateXY p (Fin a) in
  let r := Wave.rotateZW p (Fin a) in
  (vx q * vx q + vy q * vy q)%num = Fin (x * x + y * y)
  /\ vz q = Fin z /\ vw q = Fin w
  /\ (vz r * vz r + vw r * vw r)%num = Fin (z * z + w * w)
  /\ vx r = Fin x /\ vy r = Fin y
  /\ length4 q = length4 p
  /\ length4 r = length4 p.
Proof.
  intros p q r. subst p q r. rewrite rotateXY_fin, rotateZW_fin.
  unfold fin4. cbn [vx vy vz vw nmul nadd].
  split; [f_equal; apply givens_norm, sin_cos_one |].
  split; [reflexivity |]. split; [reflexivity |].
  split; [f_equal; apply givens_norm, sin_cos_one |].
  split; [reflexivity |]. split; [reflexivity |].
  split; [apply length4_rotateXY | apply length4_rotateZW].
Qed.

(** X6.  The XY rotation and the ZW rotation commute, for every point
    and every pair of angles, the non-finite ones included. *)
Theorem rotations_commute (p : vec4) (a b : num) :
  Wave.rotateZW (Wave.rotateXY p a) b = Wave.rotateXY (Wave.rotateZW p b) a.
Proof. reflexivity. Qed.

(** X7.  On a finite point the rotation by [-a] undoes the rotation by
    [a], and a full turn changes nothing. *)
Theorem rotation_inverse_and_period (x y z w a : R) :
  let p := fin4 x y z w in
  Wave.rotateXY (Wave.rotateXY p (Fin a)) (Fin (- a)) = p
  /\ Wave.rotateZW (Wave.rotateZW p (Fin a)) (Fin (- a)) = p
  /\ Wave.rotateXY p (Fin (a + 2 * PI)) = Wave.rotateXY p (Fin a)
  /\ Wave.rotateZW p (Fin (a + 2 * PI)) = Wave.rotateZW p (Fin a).
Proof.
  intros p. subst p. rewrite !rotateXY_fin, !rotateZW_fin.
  rewrite cos_neg, sin_neg, sin_plus, cos_plus, sin_2PI, cos_2PI.
  pose proof (sin_cos_one a) as H.
  unfold fin4.
  repeat split; trivial; f_equal; f_equal;
    first [ ring
          | match goal with
            | |- ?l = ?r =>
                replace l with ((sin a * sin a + cos a * cos a) * r) by ring;
                rewrite H; ring
            end ].
Qed.

Section MixFacts.

Import Wave Mat.

Lemma finite_mat_inv (m : mat4) :
  finite_mat m = true ->
  exists a b c d e f g h i j k l q r s t,
    m = mkMat (fin4 a b c d) (fin4 e f g h) (fin4 i j k l) (fin4 q r s t).
Proof.
  destruct m as [c0 c1 c2 c3]. unfold finite_mat. cbn [col0 col1 col2 col3]. intros H.
  apply andb_prop in H as [H H3]. apply andb_prop in H as [H H2].
  apply andb_prop in H as [H0 H1].
  apply finite4_inv in H0 as (a & b & c & d & ->).
  apply finite4_inv in H1 as (e & f & g & h & ->).
  apply finite4_inv in H2 as (i & j & k & l & ->).
  apply finite4_inv in H3 as (q & r & s & t & ->).
  repeat eexists.
Qed.

Lemma mix_fin (x y t : R) : mix (Fin x) (Fin y) (Fin t) = Fin (x * (1 - t) + y * t).
Proof. reflexivity. Qed.

End MixFacts.

(** X8.  For finite matrices the interpolated matrix is [matrix1] at
    fraction 0 and [matrix2] at fraction 1, and interpolating a matrix
    with itself gives that matrix at every finite fraction. *)
Theorem mixMatrix_endpoints (m1 m2 : mat4) :
  Mat.finite_mat m1 = true -> Mat.finite_mat m2 = true ->
  Wave.mixMatrix m1 m2 (Fin 0) = m1
  /\ Wave.mixMatrix m1 m2 (Fin 1) = m2
  /\ forall t : R, Wave.mixMatrix m1 m1 (Fin t) = m1.
Proof.
  intros H1 H2.
  apply finite_mat_inv in H1
    as (a & b & c & d & e & f & g & h & i & j & k & l & q & r & s & t & ->).
  apply finite_mat_inv in H2
    as (a' & b' & c' & d' & e' & f' & g' & h' & i' & j' & k' & l' & q' & r' & s' & t' & ->).
  unfold Wave.mixMatrix, mix4, fin4. cbn [col0 col1 col2 col3 vx vy vz vw].
  rewrite !mix_fin.
  split; [| split; [| intros u; rewrite !mix_fin]];
    f_equal; f_equal; f_equal; ring.
Qed.

Lemma mixMatrix_endpoints_witness :
  Wave.mixMatrix Wave.identity4 Wave.identity4 (Fin 0) = Wave.identity4.
Proof.
  exact (proj1 (mixMatrix_endpoints Wave.identity4 Wave.identity4 eq_refl eq_refl)).
Defined.

(** X9.  For a finite transformed coordinate and finite projection
    factor and spread, the projected position is finite exactly when
    the denominator [wFactor] is not zero. *)
Theorem projection_finite_off_pole (u : Wave.Uniforms) (base : vec4) :
  finite4 (Wave.pos4D (Wave.main u base)) = true ->
  is_finite (Wave.projectionFactor u) = true ->
  is_finite (Wave.spread u) = true ->
  (finite3 (Wave.pos3D (Wave.main u base)) = true
   <-> Wave.wFactor (Wave.main u base) <> Fin 0).
Proof.
  intros Hp Hf Hs.
  apply finite4_inv in Hp as (x & y & z & w & Hp).
  apply is_finite_inv in Hf as [f Hf], Hs as [s Hs].
  assert (W : Wave.wFactor (Wave.main u base) = Fin (1 + w * f)).
  { rewrite main_wFactor, Hp, Hf. reflexivity. }
  split.
  - intros Hfin E.
    destruct (main_pole_not_finite u base E) as (X & _).
    unfold finite3 in Hfin. rewrite X in Hfin. discriminate.
  - intros Hne. rewrite main_pos3D, W, Hp, Hs.
    assert (1 + w * f <> 0) by (intros Q; apply Hne; rewrite W, Q; reflexivity).
    unfold fin4, div3, scale3, finite3. cbn [vx vy vz x3 y3 z3].
    rewrite !ndiv_fin by assumption. reflexivity.
Qed.

Lemma projection_finite_off_pole_witness :
  finite3 (Wave.pos3D (Wave.main (Wave.rest_uniforms (Fin 0.15)) (fin4 1 1 1 (-1)))) = true
  <-> Wave.wFactor (Wave.main (Wave.rest_uniforms (Fin 0.15)) (fin4 1 1 1 (-1))) <> Fin 0.
Proof.
  apply (projection_finite_off_pole (Wave.rest_uniforms (Fin 0.15)) (fin4 1 1 1 (-1)));
    reflexivity.
Defined.

(** X10.  With projection factor 0 the projection never divides by
    zero: the position of a finite transformed coordinate is its
    x, y, z part scaled by [spread], whatever its w. *)
Theorem projection_factor_zero (u : Wave.Uniforms) (base : vec4) (s : R) :
  finite4 (Wave.pos4D (Wave.main u base)) = true ->
  Wave.projectionFactor u = Fin 0 ->
  Wave.spread u = Fin s ->
  Wave.pos3D (Wave.main u base)
  = scale3 (mk3 (vx (Wave.pos4D (Wave.main u base)))
                (vy (Wave.pos4D (Wave.main u base)))
                (vz (Wave.pos4D (Wave.main u base))))
           (Fin s).
Proof.
  intros Hp Hf Hs.
  apply finite4_inv in Hp as (x & y & z & w & Hp).
  rewrite main_pos3D, main_wFactor, Hp, Hf, Hs.
  unfold fin4, div3, scale3. cbn [vx vy vz vw x3 y3 z3 nmul nadd].
  assert (1 + w * 0 <> 0) by lra.
  rewrite !ndiv_fin by assumption. cbn [nmul].
  f_equal; f_equal; field; assumption.
Qed.

Lemma projection_factor_zero_witness :
  Wave.pos3D (Wave.main (Wave.rest_uniforms (Fin 0)) (fin4 1 (-1) 1 (-1)))
  = scale3 (mk3 (vx (Wave.pos4D (Wave.main (Wave.rest_uniforms (Fin 0)) (fin4 1 (-1) 1 (-1)))))
                (vy (Wave.pos4D (Wave.main (Wave.rest_uniforms (Fin 0)) (fin4 1 (-1) 1 (-1)))))
                (vz (Wave.pos4D (Wave.main (Wave.rest_uniforms (Fin 0)) (fin4 1 (-1) 1 (-1))))))
           (Fin 3).
Proof.
  apply (projection_factor_zero (Wave.rest_uniforms (Fin 0)) (fin4 1 (-1) 1 (-1)) 3);
    reflexivity.
Defined.

(** X11.  The intensity does not depend on the two rotation angles: two
    frames that differ only in finite angles give a particle the same
    intensity, as long as the matrix product is finite. *)
Theorem intensity_rotation_invariant (u u' : Wave.Uniforms) (base : vec4) :
  Wave.matrix1 u' = Wave.matrix1 u -> Wave.matrix2 u' = Wave.matrix2 u ->
  Wave.interpolation u' = Wave.interpolation u ->
  Wave.time u' = Wave.time u ->
  Wave.colorAnimationSpeed u' = Wave.colorAnimationSpeed u ->
  finite4 (mulMV (Wave.mixMatrix (Wave.matrix1 u) (Wave.matrix2 u) (Wave.interpolation u))
                 base) = true ->
  is_finite (Wave.angleXY u) = true -> is_finite (Wave.angleZW u) = true ->
  is_finite (Wave.angleXY u') = true -> is_finite (Wave.angleZW u') = true ->
  Wave.vIntensity (Wave.main u' base) = Wave.vIntensity (Wave.main u base).
Proof.
  intros E1 E2 E3 E4 E5 Hm Ha Hb Ha' Hb'.
  rewrite !main_vIntensity, !main_pos4D, E1, E2, E3, E4, E5.
  apply finite4_inv in Hm as (x & y & z & w & ->).
  apply is_finite_inv in Ha as [a ->], Hb as [b ->], Ha' as [a' ->], Hb' as [b' ->].
  assert (L : forall a b,
    length4 (Wave.rotateZW (Wave.rotateXY (fin4 x y z w) (Fin a)) (Fin b))
    = length4 (fin4 x y z w)).
  { intros c d. rewrite rotateXY_fin, length4_rotateZW, <- rotateXY_fin.
    apply length4_rotateXY. }
  rewrite !L. reflexivity.
Qed.

Lemma intensity_rotation_invariant_witness :
  Wave.vIntensity (Wave.main (Frames.turned_uniforms (Fin 1) (Fin 2)) (fin4 1 (-1) 1 (-1)))
  = Wave.vIntensity (Wave.main (Frames.turned_uniforms (Fin 0) (Fin 0)) (fin4 1 (-1) 1 (-1))).
Proof.
  apply (intensity_rotation_invariant (Frames.turned_uniforms (Fin 0) (Fin 0))
           (Frames.turned_uniforms (Fin 1) (Fin 2)) (fin4 1 (-1) 1 (-1))); reflexivity.
Defined.

(* ===================================================================== *)
(** ** The fragment shaders *)
(* ===================================================================== *)

Section FragmentFacts.

Lemma nlt_fin_true (a b : R) : a < b -> (Fin a <? Fin b)%num = true.
Proof. intros H. simpl. destruct (Rlt_dec a b); [reflexivity | lra]. Qed.

Lemma clamp_unit (v : R) :
  exists t, clamp (Fin v) (Fin 0) (Fin 1) = Fin t
            /\ 0 <= t <= 1 /\ (v <= 0 -> t = 0) /\ (1 <= v -> t = 1).
Proof.
  unfold clamp, gl_max, gl_min. cbn [nlt].
  destruct (Rlt_dec v 0) as [H0 | H0]; cbn [nlt].
  - destruct (Rlt_dec 1 0); [lra |]. exists 0. repeat split; lra.
  - destruct (Rlt_dec 1 v) as [H1 | H1].
    + exists 1. repeat split; lra.
    + exists v. repeat split; lra.
Qed.

Lemma smoothstep_unit (e0 e1 x : R) :
  e0 < e1 ->
  exists s, smoothstep (Fin e0) (Fin e1) (Fin x) = Fin s
            /\ 0 <= s <= 1 /\ (x <= e0 -> s = 0) /\ (e1 <= x -> s = 1).
Proof.
  intros He. unfold smoothstep, nsub. cbn [nneg nadd].
  rewrite ndiv_fin by lra.
  destruct (clamp_unit ((x + - e0) / (e1 + - e0))) as (t & -> & Ht & T0 & T1).
  cbn [nmul nneg nadd].
  exists (t * t * (3 + - (2 * t))). split; [reflexivity |].
  split.
  { assert (0 <= t * t) by (apply Rmult_le_pos; lra).
    assert (0 <= (1 - t) * (1 - t)) by (apply Rmult_le_pos; lra).
    assert (A : 0 <= t * t * (3 + - (2 * t))) by (apply Rmult_le_pos; lra).
    assert (B : 0 <= (1 - t) * (1 - t) * (1 + 2 * t)) by (apply Rmult_le_pos; lra).
    assert (E : 1 - t * t * (3 + - (2 * t)) = (1 - t) * (1 - t) * (1 + 2 * t)) by ring.
    lra. }
  split.
  - intros Hx. rewrite T0; [ring |].
    assert (0 < / (e1 + - e0)) by (apply Rinv_0_lt_compat; lra).
    unfold Rdiv. apply Rle_trans with (0 * / (e1 + - e0)); [| lra].
    apply Rmult_le_compat_r; lra.
  - intros Hx. rewrite T1; [ring |].
    apply Rmult_le_reg_r with (e1 + - e0); [lra |].
    unfold Rdiv. rewrite Rmult_assoc, Rinv_l by lra. lra.
Qed.

Lemma sqrt_half (q : R) : 0 <= q -> (0.5 < sqrt q <-> 0.25 < q).
Proof.
  intros Hq.
  assert (S : sqrt 0.25 = 0.5).
  { replace 0.25 with (0.5 * 0.5) by lra. apply sqrt_square. lra. }
  split; intros H.
  - rewrite <- S in H. apply sqrt_lt_0_alt in H. exact H.
  - rewrite <- S. apply sqrt_lt_1; lra.
Qed.

Lemma center_sq_nonneg (a b : R) : 0 <= (a - 0.5) * (a - 0.5) + (b - 0.5) * (b - 0.5).
Proof.
  pose proof (Rle_0_sqr (a - 0.5)). pose proof (Rle_0_sqr (b - 0.5)).
  unfold Rsqr in *. lra.
Qed.

End FragmentFacts.

(** X12.  The 4D-wave fragment shader discards exactly the fragments
    farther than 0.5 from the centre of the point.  For a sharpness in
    [[0, 1]] the others get the alpha [a * blendFactor * opacity] with
    [a] in [[0, 1]], [a = 1] inside the inner radius
    [0.1 + 0.35 * sharpness] and [a = 0] on the rim; their colour is
    [vColor * colorIntensity * vIntensity] plus a glow that is never
    negative for a non-negative glow intensity. *)
Theorem wave_fragment_alpha_and_color
    (pcx pcy sharp ci vi glow blend opac : R) (color : R * R * R) :
  0 <= sharp <= 1 ->
  let i := Frames.wave_fragment pcx pcy sharp ci vi glow blend opac color in
  let d := sqrt ((pcx - 0.5) * (pcx - 0.5) + (pcy - 0.5) * (pcy - 0.5)) in
  (0.5 < d -> WaveFragment.main i = None)
  /\ (d <= 0.5 ->
      exists a g,
        WaveFragment.main i
        = Some {| Indra.rgb := fin3 (color.1.1 * ci * vi + 0.2 * g)
                                    (color.1.2 * ci * vi + 0.2 * g)
                                    (color.2 * ci * vi + 0.3 * g);
                  Indra.alpha := Fin (a * blend * opac) |}
        /\ 0 <= a <= 1
        /\ (d <= 0.1 + 0.35 * sharp -> a = 1)
        /\ (d = 0.5 -> a = 0)
        /\ g = (1 - d * 2) * glow
        /\ (0 <= glow -> 0 <= g)).
Proof.
  intros Hs i d. subst i.
  unfold WaveFragment.main, Frames.wave_fragment.
  cbn [WaveFragment.gl_PointCoord WaveFragment.vColor WaveFragment.vIntensity
       WaveFragment.colorIntensity WaveFragment.sharpness WaveFragment.glowIntensity
       WaveFragment.blendFactor WaveFragment.opacity].
  cbv zeta.
  change (length2 (mk2 (x2 (mk2 (Fin pcx) (Fin pcy)) - Fin 0.5)%num
                       (y2 (mk2 (Fin pcx) (Fin pcy)) - Fin 0.5)%num))
    with (Indra.centerDist (mk2 (Fin pcx) (Fin pcy))).
  rewrite centerDist_fin. fold d.
  split.
  - intros Hd. rewrite nlt_fin_true by assumption. reflexivity.
  - intros Hd. rewrite nlt_fin_false by assumption.
    rewrite mix_fin.
    destruct (smoothstep_unit (0.1 * (1 - sharp) + 0.45 * sharp) 0.5 d)
      as (s & -> & Hs01 & S0 & S1); [lra |].
    destruct color as [[r g] b]. unfold of_triple, fin3, scale3, add3, nsub.
    cbn [fst snd x3 y3 z3 nneg nadd nmul].
    exists (1 + - s), ((1 - d * 2) * glow).
    split; [unfold fin3; do 2 f_equal; f_equal; f_equal; ring |].
    split; [lra |].
    split; [intros H; rewrite S0 by lra; ring |].
    split; [intros H; rewrite S1 by lra; ring |].
    split; [reflexivity |].
    intros Hg. apply Rmult_le_pos; lra.
Qed.

Lemma wave_fragment_alpha_and_color_witness :
  WaveFragment.main (Frames.wave_fragment 0 0 1 1 1 0.5 1 1 (1, 1, 1)) = None.
Proof.
  refine (proj1 (wave_fragment_alpha_and_color 0 0 1 1 1 0.5 1 1 (1, 1, 1) _) _).
  - lra.
  - apply sqrt_half; [apply center_sq_nonneg | lra].
Defined.

Section IndraBrightness.

Import Indra.

(** With a non-negative intensity and colour, a light away from the
    particle adds a finite, non-negative amount to every channel. *)
Lemma lightReflection_nonneg (l c p n v : R * R * R) (k : R) :
  l <> p -> 0 <= k -> Frames.nonneg3 c ->
  exists r g b,
    lightReflection (of_triple l) (of_triple c) (of_triple p) (of_triple n) (of_triple v)
      (Fin k)
    = fin3 r g b
    /\ 0 <= r /\ 0 <= g /\ 0 <= b.
Proof.
  destruct l as [[lx ly] lz], c as [[cx cy] cz], p as [[px py] pz],
           n as [[nx ny] nz], v as [[vx' vy'] vz'].
  intros Hlp Hk (Hcx & Hcy & Hcz). cbn [fst snd] in Hcx, Hcy, Hcz.
  unfold lightReflection, of_triple. cbn [fst snd].
  assert (E : sub3 (fin3 lx ly lz) (fin3 px py pz) = fin3 (lx - px) (ly - py) (lz - pz))
    by reflexivity.
  rewrite E.
  destruct (normalize_fin (lx - px) (ly - py) (lz - pz)) as (a & b & d & ->).
  { intros Q. apply Hlp. injection Q as Q1 Q2 Q3. f_equal; [f_equal |]; lra. }
  rewrite length3_fin.
  unfold reflect, neg3, sub3, scale3, dot3, fin3, nsub.
  cbn [x3 y3 z3 nneg nadd nmul].
  match goal with
  | |- context [gl_max (Fin ?r) (Fin 0)] =>
      destruct (gl_max_fin_zero r) as (m & -> & Hm)
  end.
  rewrite gl_pow_fin by assumption.
  set (s := sqrt _).
  assert (0 <= s) by apply sqrt_pos.
  assert (0 <= s * s) by (apply Rmult_le_pos; assumption).
  rewrite ndiv_fin by lra.
  cbn [nmul].
  assert (Hp : 0 <= m ^ 32) by (apply pow_le; assumption).
  assert (Ha : 0 <= k / (1 + s * s * 0.05)).
  { apply Rmult_le_pos; [assumption |]. left. apply Rinv_0_lt_compat. lra. }
  do 3 eexists. split; [reflexivity |].
  repeat split; apply Rmult_le_pos; try assumption; apply Rmult_le_pos; assumption.
Qed.

Lemma discarded_false_inv (pcx pcy : R) :
  discarded (mk2 (Fin pcx) (Fin pcy)) = false ->
  sqrt ((pcx - 0.5) * (pcx - 0.5) + (pcy - 0.5) * (pcy - 0.5)) <= 0.5
  /\ (pcx + - (0.5)) * 2 * ((pcx + - (0.5)) * 2) + (pcy + - (0.5)) * 2 * ((pcy + - (0.5)) * 2)
     <= 1.
Proof.
  unfold discarded. cbv zeta. rewrite centerDist_fin.
  unfold dot2, nsub. cbn [x2 y2 nneg nadd nmul].
  intros H. apply orb_false_elim in H as [H1 H2].
  split; apply nlt_fin_inv; assumption.
Qed.

End IndraBrightness.

(** X14.  With non-negative light intensity, reflection strength and
    light colours, every light away from the particle and a non-zero
    view vector, each channel of a fragment that is not discarded is a
    finite number at least as large as the ambient colour, which is
    itself at least 0.135. *)
Theorem reflection_at_least_ambient
    (pcx pcy sharp opac strength intensity : R) (p v l1 l2 l3 c1 c2 c3 : R * R * R) :
  l1 <> p -> l2 <> p -> l3 <> p -> v <> (0, 0, 0) ->
  0 <= strength -> 0 <= intensity ->
  Frames.nonneg3 c1 -> Frames.nonneg3 c2 -> Frames.nonneg3 c3 ->
  Indra.discarded (mk2 (Fin pcx) (Fin pcy)) = false ->
  let i := Indra.fragment pcx pcy sharp opac strength intensity p v l1 l2 l3 c1 c2 c3 in
  exists r g b ar ag ab,
    option_map Indra.rgb (Indra.main i) = Some (fin3 r g b)
    /\ Indra.ambient (mk2 (Fin pcx) (Fin pcy)) = fin3 ar ag ab
    /\ 0.135 <= ar <= r /\ 0.135 <= ag <= g /\ 0.135 <= ab <= b.
Proof.
  intros H1 H2 H3 Hv Hs Hk N1 N2 N3 Hd i. subst i.
  destruct (discarded_false_inv _ _ Hd) as [D1 D2].
  unfold Indra.main, Indra.fragment.
  cbn [Indra.gl_PointCoord Indra.sharpness Indra.opacity Indra.reflectionStrength
       Indra.lightIntensity Indra.vPosition Indra.vViewPosition
       Indra.vLightPos1 Indra.vLightPos2 Indra.vLightPos3
       Indra.vLightColor1 Indra.vLightColor2 Indra.vLightColor3].
  cbv zeta.
  rewrite centerDist_fin.
  set (d := sqrt _) in *.
  rewrite (nlt_fin_false 0.5 d) by assumption.
  unfold dot2, nsub. cbn [x2 y2 nneg nadd nmul].
  rewrite (nlt_fin_false 1 _ D2).
  rewrite nsqrt_fin by lra.
  destruct v as [[vx' vy'] vz'].
  destruct (normalize_fin vx' vy' vz' Hv) as (a & b & c & Hn).
  change (of_triple (vx', vy', vz')) with (fin3 vx' vy' vz'). rewrite Hn.
  change (fin3 a b c) with (of_triple (a, b, c)).
  match goal with
  | |- context [Indra.lightReflection _ _ _ (mk3 (Fin ?nx) (Fin ?ny) (Fin ?nz)) _ _] =>
      change (mk3 (Fin nx) (Fin ny) (Fin nz)) with (of_triple (nx, ny, nz))
  end.
  match goal with
  | |- context [Indra.lightReflection (of_triple l1) _ _ ?n ?w _] =>
      destruct (lightReflection_nonneg l1 c1 p _ _ intensity H1 Hk N1
                  : exists r g b, Indra.lightReflection (of_triple l1) (of_triple c1)
                                    (of_triple p) n w (Fin intensity) = fin3 r g b /\ _)
        as (r1 & g1 & b1 & -> & R1 & G1 & B1);
      destruct (lightReflection_nonneg l2 c2 p _ _ intensity H2 Hk N2
                  : exists r g b, Indra.lightReflection (of_triple l2) (of_triple c2)
                                    (of_triple p) n w (Fin intensity) = fin3 r g b /\ _)
        as (r2 & g2 & b2 & -> & R2 & G2 & B2);
      destruct (lightReflection_nonneg l3 c3 p _ _ intensity H3 Hk N3
                  : exists r g b, Indra.lightReflection (of_triple l3) (of_triple c3)
                                    (of_triple p) n w (Fin intensity) = fin3 r g b /\ _)
        as (r3 & g3 & b3 & -> & R3 & G3 & B3)
  end.
  unfold Indra.ambient, Indra.centerGlow. rewrite centerDist_fin. fold d.
  unfold nsub. cbn [nneg nadd nmul].
  assert (0 <= d) by apply sqrt_pos.
  rewrite gl_pow_fin by lra.
  assert (Hg : 0 <= (1 + - (d * 2)) ^ 16) by (apply pow_le; lra).
  unfold Indra.mirrorBase, add3, mul3, scale3, fin3.
  cbn [x3 y3 z3 nadd nmul option_map Indra.rgb].
  do 6 eexists. split; [reflexivity |]. split; [reflexivity |].
  assert (0 <= (0 + r1 + r2 + r3) * strength) by (apply Rmult_le_pos; lra).
  assert (0 <= (0 + g1 + g2 + g3) * strength) by (apply Rmult_le_pos; lra).
  assert (0 <= (0 + b1 + b2 + b3) * strength) by (apply Rmult_le_pos; lra).
  repeat split; lra.
Qed.

Lemma reflection_at_least_ambient_witness :
  exists r g b ar ag ab,
    option_map Indra.rgb
      (Indra.main (Indra.fragment 0.5 0.5 1 1 2.5 3 (0, 0, 0) (0, 0, 1)
                     (8, 0, 0) (0, 8, 0) (0, 0, 8)
                     (1, 0.2, 0.2) (0.2, 1, 0.2) (0.2, 0.2, 1)))
    = Some (fin3 r g b)
    /\ Indra.ambient (mk2 (Fin 0.5) (Fin 0.5)) = fin3 ar ag ab
    /\ 0.135 <= ar <= r /\ 0.135 <= ag <= g /\ 0.135 <= ab <= b.
Proof.
  apply (reflection_at_least_ambient 0.5 0.5 1 1 2.5 3 (0, 0, 0) (0, 0, 1)
           (8, 0, 0) (0, 8, 0) (0, 0, 8) (1, 0.2, 0.2) (0.2, 1, 0.2) (0.2, 0.2, 1));
    try (intros Q; injection Q; intros; lra);
    try lra;
    try (unfold Frames.nonneg3; cbn [fst snd]; lra).
  exact discarded_center.
Defined.

(* ===================================================================== *)
(** ** The animation loop *)
(* ===================================================================== *)

Section AnimFacts.

Import Anim.

Lemma degToRad_fin (d : R) : degToRad (Fin d) = Fin (d * (PI / 180)).
Proof.
  unfold degToRad. rewrite ndiv_fin by lra. reflexivity.
Qed.

Lemma abs_sin_scaled (a r : R) : 0 <= r -> - r <= sin a * r <= r.
Proof.
  intros Hr. pose proof (SIN_bound a) as [L U]. split; nra.
Qed.

Lemma abs_cos_scaled (a r : R) : 0 <= r -> - r <= cos a * r <= r.
Proof.
  intros Hr. pose proof (COS_bound a) as [L U]. split; nra.
Qed.

(** One tick in Indra's-net mode from a finite clock. *)
Lemma animate_indra (ts sx sz : num) (axy azw : bool) (dt ls t0 : R) (a b : num)
    (l1 l2 l3 : vec3) :
  ts = Fin dt ->
  animate (mkTickParams "indras-net" ts sx sz axy azw (Fin ls))
          (mkScene (Fin t0) a b l1 l2 l3)
  = let t := t0 + 0.016 * dt in
    mkScene (Fin t) a b
      (fin3 (cos (t * ls) * 8) (sin (t * ls * 0.7) * 8 * 0.5) (sin (t * ls) * 8))
      (fin3 (sin (t * ls * 0.8) * 8) (cos (t * ls * 0.6) * 8) (cos (t * ls * 0.8) * 8 * 0.7))
      (fin3 (sin (t * ls * 1.2) * 8 * 0.8) (sin (t * ls) * 8 * 0.6) (cos (t * ls * 1.2) * 8)).
Proof. intros ->. reflexivity. Qed.

End AnimFacts.

(** X15.  In 4D-wave mode, [k] calls of [animate] under constant finite
    parameters advance the clock by [k * 0.016 * timeScale] and each
    active angle by [k * 0.016 * timeScale * speed]; an inactive angle
    and the light positions stay as they were. *)
Theorem animate_wave_accumulates
    (ts sx sz ls t0 a0 b0 : R) (axy azw : bool) (l1 l2 l3 : vec3) (k : nat) :
  Nat.iter k
    (Anim.animate (Anim.mkTickParams "4d-wave" (Fin ts) (Fin sx) (Fin sz) axy azw (Fin ls)))
    (Anim.mkScene (Fin t0) (Fin a0) (Fin b0) l1 l2 l3)
  = Anim.mkScene
      (Fin (t0 + INR k * (0.016 * ts)))
      (Fin (a0 + (if axy then INR k * (0.016 * ts * sx) else 0)))
      (Fin (b0 + (if azw then INR k * (0.016 * ts * sz) else 0)))
      l1 l2 l3.
Proof.
  induction k as [| k IH].
  - simpl. f_equal; f_equal; destruct axy, azw; lra.
  - rewrite Nat.iter_succ, IH, S_INR.
    unfold Anim.animate. cbn [Anim.mode String.eqb Ascii.eqb Bool.eqb
      Anim.timeScale Anim.rotationSpeedXY Anim.rotationSpeedZW Anim.rotationActiveXY
      Anim.rotationActiveZW Anim.time Anim.angleXY Anim.angleZW
      Anim.light1 Anim.light2 Anim.light3].
    cbv zeta. destruct axy, azw; cbn [nadd nmul]; f_equal; f_equal; ring.
Qed.

(** X16.  In Indra's-net mode, [animate] leaves both angles alone,
    advances the clock, and places the lights by the new clock value
    only, not by where they were: light 1 on the cylinder of radius 8
    about the y axis with [|y| <= 4], lights 2 and 3 inside the boxes
    8 x 8 x 5.6 and 6.4 x 4.8 x 8. *)
Theorem animate_indra_orbits
    (sx sz a b : num) (axy azw : bool) (ts ls t0 : R) (l1 l2 l3 : vec3) :
  let s := Anim.animate (Anim.mkTickParams "indras-net" (Fin ts) sx sz axy azw (Fin ls))
                        (Anim.mkScene (Fin t0) a b l1 l2 l3) in
  let t := t0 + 0.016 * ts in
  Anim.time s = Fin t
  /\ Anim.angleXY s = a /\ Anim.angleZW s = b
  /\ (exists x y z, Anim.light1 s = fin3 x y z
                    /\ x * x + z * z = 64 /\ -4 <= y <= 4)
  /\ (exists x y z, Anim.light2 s = fin3 x y z
                    /\ -8 <= x <= 8 /\ -8 <= y <= 8 /\ -5.6 <= z <= 5.6)
  /\ (exists x y z, Anim.light3 s = fin3 x y z
                    /\ -6.4 <= x <= 6.4 /\ -4.8 <= y <= 4.8 /\ -8 <= z <= 8).
Proof.
  intros s t. subst s. rewrite (animate_indra _ _ _ _ _ ts) by reflexivity.
  cbv zeta. fold t.
  cbn [Anim.time Anim.angleXY Anim.angleZW Anim.light1 Anim.light2 Anim.light3].
  split; [reflexivity |]. split; [reflexivity |]. split; [reflexivity |].
  split; [| split].
  - do 3 eexists. split; [reflexivity |]. split.
    + pose proof (sin_cos_one (t * ls)). nra.
    + pose proof (abs_sin_scaled (t * ls * 0.7) 8). lra.
  - do 3 eexists. split; [reflexivity |].
    pose proof (abs_sin_scaled (t * ls * 0.8) 8).
    pose proof (abs_cos_scaled (t * ls * 0.6) 8).
    pose proof (abs_cos_scaled (t * ls * 0.8) 8). lra.
  - do 3 eexists. split; [reflexivity |].
    pose proof (abs_sin_scaled (t * ls * 1.2) 8).
    pose proof (abs_sin_scaled (t * ls) 8).
    pose proof (abs_cos_scaled (t * ls * 1.2) 8). lra.
Qed.

(** X17.  For a resolution between 2 and 20, the range of the GUI
    control, light 1 is never at the position of a particle of the
    Indra's-net lattice. *)
Theorem light1_never_on_a_particle
    (n : Z) (i : nat) (sx sz a b : num) (axy azw : bool) (ts ls t0 : R) (l1 l2 l3 : vec3) :
  (2 <= n <= 20)%Z -> (i < Z.to_nat n ^ 3)%nat ->
  Particles.item3 (Lattice.createIndrasNetParticles n) i
  <> Some (Anim.light1
             (Anim.animate (Anim.mkTickParams "indras-net" (Fin ts) sx sz axy azw (Fin ls))
                           (Anim.mkScene (Fin t0) a b l1 l2 l3))).
Proof.
  intros [Hn Hn'] Hi.
  destruct (digits3 _ i Hi) as (Hx & Hy & Hz & E).
  rewrite E at 1. rewrite item3_createIndrasNetParticles by assumption.
  rewrite (animate_indra _ _ _ _ _ ts) by reflexivity.
  cbv zeta. cbn [Anim.light1].
  destruct (axis3D_bounds n (Z.of_nat (i / Z.to_nat n ^ 2)) Hn ltac:(lia)) as (px & -> & Bx).
  destruct (axis3D_bounds n (Z.of_nat ((i / Z.to_nat n) mod Z.to_nat n)) Hn ltac:(lia))
    as (py & -> & By).
  destruct (axis3D_bounds n (Z.of_nat (i mod Z.to_nat n)) Hn ltac:(lia)) as (pz & -> & Bz).
  intros Q. injection Q as Qx Qy Qz.
  assert (IZR n <= 20) by (apply (IZR_le n 20); assumption).
  pose proof (sin_cos_one ((t0 + 0.016 * ts) * ls)).
  assert (px * px <= 25) by nra.
  assert (pz * pz <= 25) by nra.
  rewrite Qx, Qz in *. nra.
Qed.

Lemma light1_never_on_a_particle_witness :
  Particles.item3 (Lattice.createIndrasNetParticles 2) 0
  <> Some (Anim.light1
             (Anim.animate (Anim.mkTickParams "indras-net" (Fin 1) (Fin 0) (Fin 0)
                              true true (Fin 0.3))
                           (Anim.mkScene (Fin 0) (Fin 0) (Fin 0)
                              (fin3 0 0 0) (fin3 0 0 0) (fin3 0 0 0)))).
Proof.
  apply (light1_never_on_a_particle 2 0); [lia | simpl; lia].
Defined.

(** X18.  The device-orientation branch moves each camera angle one
    tenth of the way to its target and places the camera at distance
    [radius] from the origin. *)
Theorem orientCamera_on_sphere (beta gamma cp ca r : R) :
  let o := Anim.orientCamera (Fin beta) (Fin gamma) (Fin cp) (Fin ca) (Fin r) in
  let tp := (90 - beta) * (PI / 180) in
  let ta := gamma * (PI / 180) in
  exists np na x y z,
    Anim.newPolar o = Fin np /\ Anim.newAzimuthal o = Fin na
    /\ Anim.position o = fin3 x y z
    /\ tp - np = 0.9 * (tp - cp)
    /\ ta - na = 0.9 * (ta - ca)
    /\ x * x + y * y + z * z = r * r.
Proof.
  intros o tp ta. subst o. unfold Anim.orientCamera. cbv zeta.
  change (Fin 90 - Fin beta)%num with (Fin (90 - beta)).
  rewrite !degToRad_fin.
  unfold nsub. cbn [nneg nadd nmul nsin ncos Anim.newPolar Anim.newAzimuthal Anim.position].
  do 5 eexists.
  split; [reflexivity |]. split; [reflexivity |]. split; [reflexivity |].
  split; [unfold tp; set (q := (90 - beta) * (PI / 180)); lra |].
  split; [unfold ta; set (q := gamma * (PI / 180)); lra |].
  set (np := cp + _). set (na := ca + _).
  pose proof (sin_cos_one np) as P. pose proof (sin_cos_one na) as A.
  replace (r * sin np * sin na * (r * sin np * sin na) + r * cos np * (r * cos np)
           + r * sin np * cos na * (r * sin np * cos na))
    with (r * r * (sin np * sin np * (sin na * sin na + cos na * cos na) + cos np * cos np))
    by ring.
  rewrite A, Rmult_1_r, P. ring.
Qed.

(* ===================================================================== *)
(** ** Export, import and reset of the parameters *)
(* ===================================================================== *)

Section StoreFacts.

Import App Store.

(** Induction on a value with its items and fields. *)
Lemma jsval_nested_ind (P : jsval -> Prop) :
  P JUndefined -> P JNull -> (forall b, P (JBool b)) -> (forall x, P (JNum x)) ->
  (forall s, P (JStr s)) ->
  (forall items, Forall P items -> P (JArr items)) ->
  (forall fields, Forall (fun kv => P kv.2) fields -> P (JObj fields)) ->
  forall v, P v.
Proof.
  intros HU HN HB HX HS HA HO. fix IH 1.
  intros [| | b | x | s | items | fields].
  - exact HU.
  - exact HN.
  - apply HB.
  - apply HX.
  - apply HS.
  - apply HA. induction items as [| a l IHl]; constructor; [apply IH | exact IHl].
  - apply HO. induction fields as [| [k a] l IHl]; constructor; [apply IH | exact IHl].
Qed.

Lemma json_image_safe (v : jsval) : json_safe v = true -> json_image v = v.
Proof.
  induction v as [| | b | x | s | items IH | fields IH] using jsval_nested_ind;
    simpl; intros H; try reflexivity; try discriminate.
  - rewrite H. reflexivity.
  - f_equal. induction IH as [| a l Ha _ IHl]; simpl in *; [reflexivity |].
    apply andb_prop in H as [Sa Sl]. rewrite (IHl Sl). f_equal.
    rewrite (Ha Sa). destruct a; try reflexivity. discriminate.
  - f_equal. induction IH as [| [k a] l Ha _ IHl]; simpl in *; [reflexivity |].
    apply andb_prop in H as [Sa Sl]. rewrite (IHl Sl).
    rewrite (Ha Sa). destruct a; try reflexivity. discriminate.
Qed.

Lemma json_safe_defined (v : jsval) : json_safe v = true -> v <> JUndefined.
Proof. intros H ->. discriminate. Qed.

(** The properties of the exported document, when every exported
    parameter is a value JSON holds exactly. *)
Lemma own_properties_export (p : gmap string jsval) (keys : list string) :
  (forall k, k ∈ keys -> json_safe (get p k) = true) ->
  own_properties (json_image (JObj (map (fun k => (k, get p k)) keys)))
  = map (fun k => (k, get p k)) keys.
Proof.
  intros H. simpl. induction keys as [| k l IH]; [reflexivity |].
  simpl. rewrite IH by (intros k' Hk'; apply H; right; assumption).
  assert (Hk : json_safe (get p k) = true) by (apply H; left).
  rewrite (json_image_safe _ Hk).
  destruct (get p k) eqn:E; try reflexivity. discriminate.
Qed.

Lemma foldl_insert_notin (kvs : list (string * jsval)) (m : gmap string jsval) (k : string) :
  k ∉ kvs.*1 ->
  foldl (fun m kv => <[ kv.1 := kv.2 ]> m) m kvs !! k = m !! k.
Proof.
  revert m. induction kvs as [| [k' v'] l IH]; intros m Hk; [reflexivity |].
  simpl. rewrite IH by (intros Q; apply Hk; right; assumption).
  apply lookup_insert_ne. intros ->. apply Hk. left.
Qed.

Lemma foldl_insert_in (kvs : list (string * jsval)) (m : gmap string jsval)
    (k : string) (v : jsval) :
  NoDup kvs.*1 -> (k, v) ∈ kvs ->
  foldl (fun m kv => <[ kv.1 := kv.2 ]> m) m kvs !! k = Some v.
Proof.
  revert m. induction kvs as [| [k' v'] l IH]; intros m Hnd Hin.
  - apply elem_of_nil in Hin. contradiction.
  - simpl in *. apply NoDup_cons in Hnd as [Hk' Hnd].
    apply elem_of_cons in Hin as [E | Hin].
    + injection E as -> ->. rewrite foldl_insert_notin by assumption.
      apply lookup_insert_eq.
    + apply IH; assumption.
Qed.

Lemma NoDup_export_keys : NoDup export_keys.
Proof. apply (bool_decide_unpack _). vm_compute. exact I. Qed.

Lemma NoDup_reset_keys : NoDup reset_values.*1.
Proof. apply (bool_decide_unpack _). vm_compute. exact I. Qed.

Lemma fmap_fst_export (p : gmap string jsval) (keys : list string) :
  (map (fun k => (k, get p k)) keys).*1 = keys.
Proof.
  induction keys as [| k l IH]; [reflexivity |]. simpl. f_equal. exact IH.
Qed.

(** Running a sequence of assignments. *)
Lemma assign_all_run (kvs : list (string * jsval)) (st : State) :
  assign_all kvs st
  = (set_params (fun p => foldl (fun m kv => <[ kv.1 := kv.2 ]> m) p kvs) st, Some tt).
Proof.
  revert st. induction kvs as [| [k v] l IH]; intros st.
  - destruct st; reflexivity.
  - simpl. unfold bind, assign, modify. rewrite IH. destruct st; reflexivity.
Qed.

Lemma fromArray_identity : is_Some (fromArray createIdentityMatrix).
Proof. vm_compute. eexists. reflexivity. Qed.

Lemma updateMatrixUniform_ok (k : string) (st : State) :
  is_Some (fromArray (get (params st) k)) -> (updateMatrixUniform k st).2 = Some tt.
Proof.
  intros [e He]. unfold updateMatrixUniform, bind, read, modify, lift, ret.
  destruct (bool_decide (is_Some (uniforms st !! k))); [| reflexivity].
  rewrite He. reflexivity.
Qed.

Lemma updateValueUniform_ok (k : string) (st : State) :
  (updateValueUniform k st).2 = Some tt.
Proof.
  unfold updateValueUniform, bind, read, modify, ret.
  destruct (bool_decide (is_Some (uniforms st !! k))); reflexivity.
Qed.

Lemma createUniforms_ok (p : gmap string jsval) :
  is_Some (fromArray (get p "matrix1")) -> is_Some (fromArray (get p "matrix2")) ->
  is_Some (createUniforms p).
Proof.
  intros [e1 H1] [e2 H2]. unfold createUniforms.
  destruct (is_4d_wave p); [| eexists; reflexivity].
  rewrite H1, H2. eexists. reflexivity.
Qed.

(** What [recreateParticleSystem] leaves behind when no matrix makes it
    throw. *)
Lemma recreateParticleSystem_run (st : State) (u : gmap string uval) :
  createUniforms (params st) = Some u ->
  recreateParticleSystem st = (mkState (params st) (angleXY st) (angleZW st) u, Some tt).
Proof.
  intros H. unfold recreateParticleSystem, bind, read, lift, modify, ret. rewrite H.
  reflexivity.
Qed.

End StoreFacts.

Section StoreRuns.

Import App Store.

Lemma bind_ok {A B} (m : M A) (k : A -> M B) (st : State) (a : A) :
  (m st).2 = Some a -> bind m k st = k a (m st).1.
Proof.
  unfold bind. destruct (m st) as [s [x |]]; simpl; intros H; [| discriminate].
  injection H as ->. reflexivity.
Qed.

Lemma updateShaderUniforms_ok (st : State) :
  is_Some (fromArray (get (params st) "matrix1")) ->
  is_Some (fromArray (get (params st) "matrix2")) ->
  (updateShaderUniforms st).2 = Some tt.
Proof.
  intros H1 H2. unfold updateShaderUniforms.
  rewrite (bind_ok _ _ _ tt) by (apply updateMatrixUniform_ok; assumption).
  destruct (updateMatrixUniform_touches "matrix1" st) as (P1 & _).
  rewrite (bind_ok _ _ _ tt) by (apply updateMatrixUniform_ok; rewrite P1; assumption).
  apply updateValueUniform_ok.
Qed.

Lemma createGUI_state (st : State) : (createGUI st).1 = st.
Proof.
  unfold createGUI, bind, read, lift, ret, throw.
  destruct (mapM _ _); [| reflexivity].
  destruct (mapM _ _); reflexivity.
Qed.

End StoreRuns.

(** X19.  An import never changes the two accumulated angles, and when
    it reports success the shader uniforms are exactly those a new
    particle system gets from the imported parameters. *)
Theorem importParameters_angles_and_uniforms (d : App.jsval) (st : App.State) :
  let r := App.importParameters (Some d) st in
  App.angleXY r.1 = App.angleXY st
  /\ App.angleZW r.1 = App.angleZW st
  /\ (r.2 = App.Imported -> App.createUniforms (App.params r.1) = Some (App.uniforms r.1)).
Proof.
  intros r.
  assert (E : r = App.importParameters (Some d) st) by reflexivity. clearbody r.
  unfold App.importParameters in E.
  unfold App.bind at 1 in E. unfold App.modify at 1 in E.
  set (st1 := App.set_params _ st) in E.
  unfold App.bind at 1 in E.
  destruct (updateShaderUniforms_touches st1) as (P2 & X2 & Z2 & _).
  destruct (App.updateShaderUniforms st1) as [st2 [[] |]]; cbn [fst snd] in *.
  2:{ subst r. repeat split; [assumption | assumption | discriminate]. }
  unfold App.bind at 1 in E. unfold App.recreateParticleSystem at 1 in E.
  unfold App.bind at 1, App.read at 1 in E. unfold App.bind at 1 in E.
  destruct (App.createUniforms (App.params st2)) as [u |] eqn:EU;
    cbn [App.lift App.ret App.throw] in E.
  2:{ subst r. repeat split; [assumption | assumption | discriminate]. }
  unfold App.modify in E.
  set (st3 := App.set_uniforms _ st2) in E.
  pose proof (createGUI_state st3) as G.
  destruct (App.createGUI st3) as [st4 [[] |]]; cbn [fst snd] in *; subst st4 r.
  - repeat split; try assumption. intros _. exact EU.
  - repeat split; try assumption. discriminate.
Qed.

(** X20.  Importing the document that [exportParameters] wrote for the
    parameters [p] gives every exported key its value in [p] again and
    leaves the other keys of the store alone, provided every exported
    value is one JSON holds exactly (no [undefined], no NaN or infinity).
    In particular export followed by import changes no parameter. *)
Theorem export_import_restores (p : gmap string App.jsval) (st : App.State) :
  forallb (fun k => Store.json_safe (App.get p k)) Store.export_keys = true ->
  let p' := App.params (App.importParameters (Some (Store.exportParameters p)) st).1 in
  (forall k, k ∈ Store.export_keys -> p' !! k = Some (App.get p k))
  /\ (forall k, k ∉ Store.export_keys -> p' !! k = App.params st !! k)
  /\ (App.params st = p -> p' = p).
Proof.
  intros Hsafe p'. subst p'. rewrite importParameters_params.
  assert (S : forall k, k ∈ Store.export_keys -> Store.json_safe (App.get p k) = true).
  { intros k Hk. rewrite forallb_forall in Hsafe. apply Hsafe.
    apply list_elem_of_In. exact Hk. }
  unfold App.object_assign, Store.exportParameters, Store.exportData.
  rewrite own_properties_export by exact S.
  assert (A : forall k, k ∈ Store.export_keys ->
    foldl (fun m kv => <[ kv.1 := kv.2 ]> m) (App.params st)
          (map (fun k => (k, App.get p k)) Store.export_keys) !! k
    = Some (App.get p k)).
  { intros k Hk. apply foldl_insert_in.
    - rewrite fmap_fst_export. apply NoDup_export_keys.
    - apply (list_elem_of_fmap_2 (fun k => (k, App.get p k))). exact Hk. }
  assert (B : forall k, k ∉ Store.export_keys ->
    foldl (fun m kv => <[ kv.1 := kv.2 ]> m) (App.params st)
          (map (fun k => (k, App.get p k)) Store.export_keys) !! k
    = App.params st !! k).
  { intros k Hk. apply foldl_insert_notin. rewrite fmap_fst_export. exact Hk. }
  split; [exact A |]. split; [exact B |].
  intros <-. apply map_eq. intros k.
  destruct (decide (k ∈ Store.export_keys)) as [Hk | Hk].
  - rewrite A by exact Hk.
    pose proof (S k Hk) as Sk. unfold App.get in *.
    destruct (App.params st !! k); [reflexivity | discriminate].
  - apply B. exact Hk.
Qed.

Lemma export_import_restores_witness :
  App.params
    (App.importParameters (Some (Store.exportParameters App.default_params))
                          App.initial_state).1
  = App.default_params.
Proof.
  refine (proj2 (proj2 (export_import_restores App.default_params App.initial_state _)) _).
  - vm_compute. reflexivity.
  - reflexivity.
Defined.

(** X21.  [resetToDefault] never throws.  It gives the nineteen
    parameters it assigns their default values, zeroes both angles and
    rebuilds the uniforms from the result; it leaves every other key
    alone, among them [mode], [timeScale] and the four Indra's-net
    parameters. *)
Theorem resetToDefault_resets (st : App.State) :
  let st' := Store.resetToDefault st in
  (Store.resetToDefault_body st).2 = Some tt
  /\ (forall k v, (k, v) ∈ Store.reset_values -> App.params st' !! k = Some v)
  /\ (forall k, k ∉ Store.reset_values.*1 -> App.params st' !! k = App.params st !! k)
  /\ (forall k, k ∈ Store.kept_by_reset -> App.params st' !! k = App.params st !! k)
  /\ App.angleXY st' = Fin 0 /\ App.angleZW st' = Fin 0
  /\ App.createUniforms (App.params st') = Some (App.uniforms st').
Proof.
  intros st'. subst st'. unfold Store.resetToDefault, Store.resetToDefault_body.
  rewrite (bind_ok _ _ _ tt) by (rewrite assign_all_run; reflexivity).
  rewrite assign_all_run. cbn [fst].
  set (st1 := App.set_params _ st).
  assert (V : forall k v, (k, v) ∈ Store.reset_values -> App.params st1 !! k = Some v).
  { intros k v H. apply foldl_insert_in; [apply NoDup_reset_keys | exact H]. }
  assert (F : forall k, k ∉ Store.reset_values.*1 -> App.params st1 !! k = App.params st !! k).
  { intros k H. apply foldl_insert_notin. exact H. }
  assert (M1 : App.get (App.params st1) "matrix1" = App.createIdentityMatrix).
  { unfold App.get. rewrite (V "matrix1"%string App.createIdentityMatrix); [reflexivity |].
    unfold Store.reset_values. set_solver. }
  assert (M2 : App.get (App.params st1) "matrix2" = App.createIdentityMatrix).
  { unfold App.get. rewrite (V "matrix2"%string App.createIdentityMatrix); [reflexivity |].
    unfold Store.reset_values. set_solver. }
  rewrite (bind_ok _ _ _ tt)
    by (apply updateShaderUniforms_ok; rewrite ?M1, ?M2; apply fromArray_identity).
  destruct (updateShaderUniforms_touches st1) as (P2 & _).
  set (st2 := (App.updateShaderUniforms st1).1) in *.
  rewrite (bind_ok _ _ _ tt) by apply updateValueUniform_ok.
  destruct (updateValueUniform_touches "particleSize" st2) as (P3 & _).
  set (st3 := (App.updateValueUniform "particleSize" st2).1) in *.
  rewrite (bind_ok _ _ _ tt) by apply updateValueUniform_ok.
  destruct (updateValueUniform_touches "spread" st3) as (P4 & _).
  set (st4 := (App.updateValueUniform "spread" st3).1) in *.
  rewrite (bind_ok _ _ _ tt) by apply updateValueUniform_ok.
  destruct (updateValueUniform_touches "colorIntensity" st4) as (P5 & _).
  set (st5 := (App.updateValueUniform "colorIntensity" st4).1) in *.
  rewrite (bind_ok _ _ _ tt) by apply updateValueUniform_ok.
  destruct (updateValueUniform_touches "projectionFactor" st5) as (P6 & _).
  set (st6 := (App.updateValueUniform "projectionFactor" st5).1) in *.
  rewrite (bind_ok _ _ _ tt) by reflexivity.
  set (st7 := (App.modify _ st6).1).
  assert (P : App.params st7 = App.params st1) by (change (App.params st6 = App.params st1); congruence).
  destruct (createUniforms_ok (App.params st7)) as [u Hu].
  { rewrite P, M1. apply fromArray_identity. }
  { rewrite P, M2. apply fromArray_identity. }
  rewrite (recreateParticleSystem_run _ u) by exact Hu.
  cbn [fst snd App.params App.angleXY App.angleZW App.uniforms].
  split; [reflexivity |].
  rewrite P.
  split; [exact V |]. split; [exact F |].
  split.
  { intros k Hk. apply F. unfold Store.kept_by_reset in Hk.
    apply (bool_decide_unpack _).
    repeat (apply elem_of_cons in Hk as [-> | Hk]; [vm_compute; exact I |]).
    apply elem_of_nil in Hk. contradiction. }
  split; [reflexivity |]. split; [reflexivity |].
  rewrite <- P. exact Hu.
Qed.

(* ===================================================================== *)
(** ** Randomization of the parameters *)
(* ===================================================================== *)

Section RandomizeFacts.

Import App Store Randomize.

Lemma get_JArr (p : gmap string jsval) (k : string) (a : list jsval) :
  get p k = JArr a -> p !! k = Some (JArr a).
Proof.
  unfold get. destruct (p !! k); simpl; [intros -> | discriminate]. reflexivity.
Qed.

Lemma get_insert_eq (p : gmap string jsval) (k : string) (v : jsval) :
  get (<[ k := v ]> p) k = v.
Proof. unfold get. rewrite lookup_insert_eq. reflexivity. Qed.

Lemma get_insert_ne (p : gmap string jsval) (k k' : string) (v : jsval) :
  k <> k' -> get (<[ k := v ]> p) k' = get p k'.
Proof. intros H. unfold get. rewrite lookup_insert_ne by assumption. reflexivity. Qed.

Lemma assign_index_run (k : string) (i : nat) (v : jsval) (st : State) (a : list jsval) :
  get (params st) k = JArr a -> (i < length a)%nat ->
  assign_index k i v st = (set_params <[ k := JArr (<[ i := v ]> a) ]> st, Some tt).
Proof.
  intros Hk Hi. unfold assign_index, bind, read, lift, assign, modify, ret.
  rewrite Hk. unfold set_index.
  apply Nat.ltb_lt in Hi. rewrite Hi. reflexivity.
Qed.

(** The loop that fills the two matrices, entry by entry. *)
Lemma matrix_loop_run (random : nat -> num) (l : list nat) :
  forall (st : State) (a1 a2 : list jsval),
    get (params st) "matrix1" = JArr a1 -> get (params st) "matrix2" = JArr a2 ->
    (forall i, i ∈ l -> (i < length a1)%nat /\ (i < length a2)%nat) ->
    exists st',
      for_each l (fun i =>
        assign_index "matrix1" i (random_entry (random (2 * i)%nat)) ;;
        assign_index "matrix2" i (random_entry (random (2 * i + 1)%nat))) st
      = (st', Some tt)
      /\ get (params st') "matrix1"
         = JArr (foldl (fun a i => <[ i := random_entry (random (2 * i)%nat) ]> a) a1 l)
      /\ get (params st') "matrix2"
         = JArr (foldl (fun a i => <[ i := random_entry (random (2 * i + 1)%nat) ]> a) a2 l)
      /\ (forall k, k <> "matrix1"%string -> k <> "matrix2"%string ->
                    params st' !! k = params st !! k)
      /\ angleXY st' = angleXY st /\ angleZW st' = angleZW st
      /\ uniforms st' = uniforms st.
Proof.
  induction l as [| i l IH]; intros st a1 a2 H1 H2 Hl.
  - exists st. simpl. repeat split; assumption.
  - destruct (Hl i ltac:(left)) as [L1 L2].
    cbn [for_each foldr].
    set (st1 := set_params <[ "matrix1"%string
                              := JArr (<[ i := random_entry (random (2 * i)%nat) ]> a1) ]> st).
    set (st2 := set_params <[ "matrix2"%string
                              := JArr (<[ i := random_entry (random (2 * i + 1)%nat) ]> a2) ]> st1).
    assert (G2 : get (params st1) "matrix2" = JArr a2).
    { cbn. rewrite get_insert_ne by discriminate. exact H2. }
    assert (B : (assign_index "matrix1" i (random_entry (random (2 * i)%nat)) ;;
                 assign_index "matrix2" i (random_entry (random (2 * i + 1)%nat))) st
                = (st2, Some tt)).
    { unfold bind at 1. rewrite (assign_index_run _ _ _ _ a1) by assumption.
      fold st1. rewrite (assign_index_run _ _ _ _ a2) by assumption. reflexivity. }
    destruct (IH st2 (<[ i := random_entry (random (2 * i)%nat) ]> a1)
                     (<[ i := random_entry (random (2 * i + 1)%nat) ]> a2))
      as (st' & R & M1 & M2 & F & X & Z & U).
    { cbn. rewrite get_insert_ne by discriminate. apply get_insert_eq. }
    { cbn. apply get_insert_eq. }
    { intros j Hj. rewrite !length_insert. apply Hl. right. exact Hj. }
    exists st'. split.
    { unfold bind at 1.
      change (for_each l ?b) with (foldr (fun i m => b i ;; m) (ret tt) l) in R.
      rewrite B. exact R. }
    split; [exact M1 |]. split; [exact M2 |].
    split.
    { intros k K1 K2. rewrite F by assumption. cbn.
      rewrite !lookup_insert_ne by congruence. reflexivity. }
    repeat split; assumption.
Qed.

Lemma foldl_list_insert {A} (f : nat -> A) (l : list nat) :
  forall a : list A,
    NoDup l -> (forall i, i ∈ l -> (i < length a)%nat) ->
    length (foldl (fun a i => <[ i := f i ]> a) a l) = length a
    /\ forall j, j ∈ l -> foldl (fun a i => <[ i := f i ]> a) a l !! j = Some (f j).
Proof.
  induction l as [| i l IH]; intros a Hnd Hl.
  - split; [reflexivity |]. intros j Hj. apply elem_of_nil in Hj. contradiction.
  - apply NoDup_cons in Hnd as [Hi Hnd]. cbn [foldl].
    destruct (IH (<[ i := f i ]> a) Hnd) as [L Q].
    { intros j Hj. rewrite length_insert. apply Hl. right. exact Hj. }
    split; [rewrite L; apply length_insert |].
    intros j Hj. apply elem_of_cons in Hj as [-> | Hj]; [| apply Q; exact Hj].
    clear Q L IH.
    assert (S : forall (l : list nat) (b : list A), i ∉ l ->
              foldl (fun a i => <[ i := f i ]> a) b l !! i = b !! i).
    { clear. induction l as [| k l IH]; intros b Hk; [reflexivity |].
      cbn [foldl]. rewrite IH by (intros Q; apply Hk; right; exact Q).
      apply list_lookup_insert_ne. intros ->. apply Hk. left. }
    rewrite S by exact Hi. apply list_lookup_insert_eq. apply Hl. left.
Qed.

Lemma random_entry_in_range (r : R) : 0 <= r < 1 -> entry_in_range (random_entry (Fin r)).
Proof.
  intros Hr. exists ((r - 0.5) * 4). split; [reflexivity | lra].
Qed.

Lemma randomized_matrix (random : nat -> num) (g : nat -> nat) (a : list jsval) :
  (forall n, exists r, random n = Fin r /\ 0 <= r < 1) ->
  length a = 16%nat ->
  let m := foldl (fun a i => <[ i := random_entry (random (g i)) ]> a) a (seq 0 16) in
  length m = 16%nat /\ Forall entry_in_range m.
Proof.
  intros Hr La m.
  destruct (foldl_list_insert (fun i => random_entry (random (g i))) (seq 0 16) a) as [L Q].
  { apply NoDup_seq. }
  { intros i Hi. apply elem_of_seq in Hi. lia. }
  fold m in L, Q. split; [congruence |].
  apply Forall_lookup. intros j x Hj.
  assert (j < 16)%nat by (rewrite <- La, <- L; eapply lookup_lt_Some; exact Hj).
  rewrite Q in Hj by (apply elem_of_seq; lia).
  injection Hj as <-.
  destruct (Hr (g j)) as (r & -> & Hr01). apply random_entry_in_range. exact Hr01.
Qed.

Lemma fromArray_JArr (a : list jsval) : is_Some (fromArray (JArr a)).
Proof.
  unfold fromArray. apply mapM_is_Some_2, Forall_forall. intros i _. eexists. reflexivity.
Qed.

Lemma createGUI_ok (st : State) (a1 a2 : list jsval) :
  get (params st) "matrix1" = JArr a1 -> get (params st) "matrix2" = JArr a2 ->
  (createGUI st).2 = Some tt.
Proof.
  intros H1 H2. unfold createGUI, bind, read, lift, ret. rewrite H1, H2.
  destruct (fromArray_JArr a1) as [e1 E1]. destruct (fromArray_JArr a2) as [e2 E2].
  unfold fromArray in E1, E2. rewrite E1, E2. reflexivity.
Qed.

Lemma updateValueUniform_params (k : string) (st : State) :
  params (updateValueUniform k st).1 = params st.
Proof. apply (updateValueUniform_touches k st). Qed.

Lemma updateValueUniform_angles (k : string) (st : State) :
  angleXY (updateValueUniform k st).1 = angleXY st
  /\ angleZW (updateValueUniform k st).1 = angleZW st.
Proof. destruct (updateValueUniform_touches k st) as (_ & X & Z & _). auto. Qed.

Lemma at_floor_blendingModes (r : R) :
  0 <= r < 1 -> at_floor blendingModes (Fin r * Fin 4)%num ∈ blendingModes.
Proof.
  intros Hr. cbn [nmul at_floor].
  destruct (base_Int_part (r * 4)) as [Lo Hi].
  set (z := Int_part (r * 4)) in *.
  assert (0 <= z)%Z.
  { apply Z.lt_succ_r. apply lt_IZR. rewrite succ_IZR. lra. }
  assert (z < 4)%Z by (apply lt_IZR; lra).
  replace (0 <=? z)%Z with true by (symmetry; apply Z.leb_le; assumption).
  assert (Hz : (Z.to_nat z < 4)%nat) by lia.
  unfold blendingModes.
  destruct (Z.to_nat z) as [| [| [| [| n]]]]; [| | | | lia]; cbn [nth];
    apply list_elem_of_In; simpl; auto 10.
Qed.

End RandomizeFacts.

Section RandomizeRun.

Import App Store Randomize.

Lemma NoDup_random_keys (random : nat -> num) : NoDup (random_values random).*1.
Proof. apply (bool_decide_unpack _). vm_compute. exact I. Qed.

Lemma random_keys_fixed (random : nat -> num) :
  (random_values random).*1 = (random_values (fun _ => NaN)).*1.
Proof. reflexivity. Qed.

(** The run of [randomizeParameters] from a state whose two matrices
    are arrays of sixteen elements. *)
Lemma randomizeParameters_run (random : nat -> num) (st : State) (a1 a2 : list jsval) :
  get (params st) "matrix1" = JArr a1 -> length a1 = 16%nat ->
  get (params st) "matrix2" = JArr a2 -> length a2 = 16%nat ->
  exists st',
    randomizeParameters random st = (st', Some tt)
    /\ params st'
       = foldl (fun m kv => <[ kv.1 := kv.2 ]> m)
           (<[ "matrix2"%string
               := JArr (foldl (fun a i => <[ i := random_entry (random (2 * i + 1)%nat) ]> a)
                              a2 (seq 0 16)) ]>
              (<[ "matrix1"%string
                  := JArr (foldl (fun a i => <[ i := random_entry (random (2 * i)%nat) ]> a)
                                 a1 (seq 0 16)) ]>
                 (params st)))
           (random_values random)
    /\ angleXY st' = angleXY st /\ angleZW st' = angleZW st.
Proof.
  intros H1 L1 H2 L2.
  destruct (matrix_loop_run random (seq 0 16) st a1 a2 H1 H2)
    as (s0 & R & M1 & M2 & F & X & Z & U).
  { intros i Hi. apply elem_of_seq in Hi. lia. }
  set (A1 := foldl _ a1 _) in *. set (A2 := foldl _ a2 _) in *.
  assert (P0 : params s0 = <[ "matrix2"%string := JArr A2 ]>
                             (<[ "matrix1"%string := JArr A1 ]> (params st))).
  { apply map_eq. intros k.
    destruct (decide (k = "matrix2"%string)) as [-> | K2].
    { rewrite lookup_insert_eq. apply get_JArr. exact M2. }
    rewrite lookup_insert_ne by congruence.
    destruct (decide (k = "matrix1"%string)) as [-> | K1].
    { rewrite lookup_insert_eq. apply get_JArr. exact M1. }
    rewrite lookup_insert_ne by congruence. apply F; assumption. }
  unfold randomizeParameters.
  rewrite (bind_ok _ _ _ tt) by (rewrite R; reflexivity).
  rewrite R. cbn [fst].
  rewrite (bind_ok _ _ _ tt) by (rewrite assign_all_run; reflexivity).
  rewrite assign_all_run. cbn [fst].
  set (s1 := set_params _ s0).
  assert (P1 : params s1 = foldl (fun m kv => <[ kv.1 := kv.2 ]> m) (params s0)
                                 (random_values random)) by reflexivity.
  assert (G1 : get (params s1) "matrix1" = JArr A1).
  { unfold get. rewrite P1, foldl_insert_notin.
    - exact M1.
    - rewrite random_keys_fixed. apply (bool_decide_unpack _). vm_compute. exact I. }
  assert (G2 : get (params s1) "matrix2" = JArr A2).
  { unfold get. rewrite P1, foldl_insert_notin.
    - exact M2.
    - rewrite random_keys_fixed. apply (bool_decide_unpack _). vm_compute. exact I. }
  rewrite (bind_ok _ _ _ tt)
    by (apply updateShaderUniforms_ok; rewrite ?G1, ?G2; apply fromArray_JArr).
  destruct (updateShaderUniforms_touches s1) as (Q & QX & QZ & _).
  set (s2 := (updateShaderUniforms s1).1) in *.
  repeat rewrite (bind_ok (updateValueUniform _) _ _ tt) by apply updateValueUniform_ok.
  match goal with
  | |- exists st', createGUI ?s = _ /\ _ =>
      assert (PS : params s = params s2) by (rewrite !updateValueUniform_params; reflexivity);
      assert (XS : angleXY s = angleXY s2)
        by (repeat rewrite (proj1 (updateValueUniform_angles _ _)); reflexivity);
      assert (ZS : angleZW s = angleZW s2)
        by (repeat rewrite (proj2 (updateValueUniform_angles _ _)); reflexivity);
      set (s3 := s) in *
  end.
  exists s3.
  pose proof (createGUI_state s3) as GS.
  pose proof (createGUI_ok s3 A1 A2) as GO.
  rewrite PS, Q in GO. specialize (GO G1 G2).
  destruct (createGUI s3) as [s4 o]. cbn [fst snd] in GS, GO. subst s4 o.
  split; [reflexivity |].
  split; [rewrite PS, Q, P1, P0; reflexivity |].
  split; [rewrite XS, QX; exact X | rewrite ZS, QZ; exact Z].
Qed.

End RandomizeRun.

(** X22.  From a state whose two matrices are arrays of sixteen
    elements, and with every draw of [Math.random()] in [[0, 1)],
    [randomizeParameters] gives each matrix sixteen entries in
    [[-2, 2)]; every numeric parameter lies in the range the
    comment beside its assignment gives, the upper bound excluded; the
    blending mode is one of the four names; the keys it does not assign
    ([mode], [gridSize], [timeScale], ...) and the two angles are as
    before. *)
Theorem randomizeParameters_ranges
    (random : nat -> num) (st : App.State) (a1 a2 : list App.jsval) :
  (forall n, exists r, random n = Fin r /\ 0 <= r < 1) ->
  App.get (App.params st) "matrix1" = App.JArr a1 -> length a1 = 16%nat ->
  App.get (App.params st) "matrix2" = App.JArr a2 -> length a2 = 16%nat ->
  let r := Randomize.randomizeParameters random st in
  (exists m1 m2,
        App.params r.1 !! "matrix1"%string = Some (App.JArr m1)
        /\ App.params r.1 !! "matrix2"%string = Some (App.JArr m2)
        /\ length m1 = 16%nat /\ length m2 = 16%nat
        /\ Forall Randomize.entry_in_range m1 /\ Forall Randomize.entry_in_range m2)
  /\ (forall k lo hi, (k, (lo, hi)) ∈ Randomize.random_ranges ->
        exists v, App.params r.1 !! k = Some (App.JNum (Fin v)) /\ lo <= v < hi)
  /\ (exists m, App.params r.1 !! "blendingMode"%string = Some m
                /\ m ∈ Randomize.blendingModes)
  /\ (forall k, k ∉ Randomize.randomized_keys -> App.params r.1 !! k = App.params st !! k)
  /\ App.angleXY r.1 = App.angleXY st /\ App.angleZW r.1 = App.angleZW st.
Proof.
  intros Hr H1 L1 H2 L2 r. subst r.
  destruct (randomizeParameters_run random st a1 a2 H1 L1 H2 L2) as (st' & -> & P & X & Z).
  cbn [fst snd].
  assert (V : forall k v, (k, v) ∈ Randomize.random_values random ->
                          App.params st' !! k = Some v).
  { intros k v H. rewrite P. apply foldl_insert_in; [apply NoDup_random_keys | exact H]. }
  match type of P with
  | _ = foldl _ ?base _ => set (B := base) in *
  end.
  assert (N : forall k, k ∉ (Randomize.random_values random).*1 ->
                        App.params st' !! k = B !! k).
  { intros k H. rewrite P. apply foldl_insert_notin. exact H. }
  split.
  { destruct (randomized_matrix random (fun i => (2 * i)%nat) a1 Hr L1) as [LA FA].
    destruct (randomized_matrix random (fun i => (2 * i + 1)%nat) a2 Hr L2) as [LB FB].
    do 2 eexists.
    split.
    { rewrite N by (rewrite random_keys_fixed; apply (bool_decide_unpack _);
                    vm_compute; exact I).
      unfold B. rewrite lookup_insert_ne by discriminate. apply lookup_insert_eq. }
    split.
    { rewrite N by (rewrite random_keys_fixed; apply (bool_decide_unpack _);
                    vm_compute; exact I).
      unfold B. apply lookup_insert_eq. }
    repeat split; assumption. }
  split.
  { intros k lo hi Hk. unfold Randomize.random_ranges in Hk.
    repeat (apply elem_of_cons in Hk as [Hk | Hk];
            [ injection Hk as -> -> ->;
              match goal with
              | |- exists v, _ !! ?key = _ /\ _ =>
                  match eval unfold Randomize.random_values in
                        (Randomize.random_values random) with
                  | context [(key, App.JNum ?e)] =>
                      match e with
                      | context [random ?n] =>
                          destruct (Hr n) as (x & Ex & Hx);
                          eexists; split;
                          [ apply V; unfold Randomize.random_values; rewrite Ex;
                            apply list_elem_of_In; simpl; auto 30
                          | cbn [nmul nadd]; lra ]
                      end
                  end
              end
            | ]).
    apply elem_of_nil in Hk. contradiction. }
  split.
  { destruct (Hr 46%nat) as (x & Ex & Hx).
    eexists. split.
    - apply V. unfold Randomize.random_values. apply list_elem_of_In. simpl. auto 30.
    - rewrite Ex. apply at_floor_blendingModes. exact Hx. }
  split.
  { intros k Hk. unfold Randomize.randomized_keys in Hk.
    rewrite N by (rewrite random_keys_fixed; intros Q; apply Hk; right; right; exact Q).
    unfold B. rewrite !lookup_insert_ne; [reflexivity | |]; intros <-; apply Hk.
    - left.
    - right. left. }
  split; assumption.
Qed.

Lemma randomizeParameters_ranges_witness :
  exists m, App.params (Randomize.randomizeParameters (fun _ => Fin 0.5) App.initial_state).1
              !! "blendingMode"%string = Some m
            /\ m ∈ Randomize.blendingModes.
Proof.
  refine (proj1 (proj2 (proj2 (randomizeParameters_ranges (fun _ => Fin 0.5) App.initial_state
                   (map App.JNum Wave.createIdentityMatrix)
                   (map App.JNum Wave.createIdentityMatrix) _ _ _ _ _)))).
  - intros n. exists 0.5. split; [reflexivity | lra].
  - reflexivity.
  - reflexivity.
  - reflexivity.
  - reflexivity.
Defined.

(* ===================================================================== *)
(** ** Well-formed imports *)
(* ===================================================================== *)

Section TypingFacts.

Import App Store Typing.

Lemma field_type_exported (k : string) :
  is_Some (field_type k) <-> k ∈ export_keys.
Proof.
  split.
  - intros [t Ht]. unfold field_type in Ht.
    destruct (decide (k = "mode"%string)) as [-> | N1];
      [apply (bool_decide_unpack _); vm_compute; exact I |].
    rewrite (bool_decide_eq_false_2 _ N1) in Ht.
    match type of Ht with
    | (if bool_decide ?P then _ else _) = _ => destruct (decide P) as [H | N2]
    end.
    { repeat (apply elem_of_cons in H as [-> | H];
              [apply (bool_decide_unpack _); vm_compute; exact I |]).
      apply elem_of_nil in H. contradiction. }
    rewrite (bool_decide_eq_false_2 _ N2) in Ht.
    destruct (decide (k = "blendingMode"%string)) as [-> | N3];
      [apply (bool_decide_unpack _); vm_compute; exact I |].
    rewrite (bool_decide_eq_false_2 _ N3) in Ht.
    match type of Ht with
    | (if bool_decide ?P then _ else _) = _ => destruct (decide P) as [H | N4]
    end.
    { repeat (apply elem_of_cons in H as [-> | H];
              [apply (bool_decide_unpack _); vm_compute; exact I |]).
      apply elem_of_nil in H. contradiction. }
    rewrite (bool_decide_eq_false_2 _ N4) in Ht.
    match type of Ht with
    | (if bool_decide ?P then _ else _) = _ => destruct (decide P) as [H | N5]
    end.
    { repeat (apply elem_of_cons in H as [-> | H];
              [apply (bool_decide_unpack _); vm_compute; exact I |]).
      apply elem_of_nil in H. contradiction. }
    rewrite (bool_decide_eq_false_2 _ N5) in Ht. discriminate.
  - intros Hk. unfold export_keys in Hk.
    repeat (apply elem_of_cons in Hk as [-> | Hk]; [vm_compute; eexists; reflexivity |]).
    apply elem_of_nil in Hk. contradiction.
Qed.

Lemma well_typed_insert (p : gmap string jsval) (k : string) (v : jsval) :
  well_typed p ->
  (forall t, field_type k = Some t -> has_type t v = true) ->
  well_typed (<[ k := v ]> p).
Proof.
  intros Hp Hv k' t Ht. destruct (decide (k = k')) as [-> | Hne].
  - exists v. rewrite lookup_insert_eq. split; [reflexivity | apply Hv; exact Ht].
  - rewrite lookup_insert_ne by assumption. apply Hp. exact Ht.
Qed.

Lemma well_typed_assign (d : jsval) (p : gmap string jsval) :
  well_typed p -> well_formed d = true -> well_typed (object_assign p d).
Proof.
  intros Hp Hd. destruct d as [| | b | x | s | items | fields]; try discriminate.
  unfold object_assign, own_properties. simpl in Hd.
  revert p Hp. induction fields as [| [k v] l IH]; intros p Hp; [exact Hp |].
  simpl in Hd. apply andb_prop in Hd as [Hk Hl]. cbn [foldl].
  apply IH; [exact Hl |]. apply well_typed_insert; [exact Hp |].
  intros t Ht. cbn [fst snd] in *. rewrite Ht in Hk. exact Hk.
Qed.

Lemma well_typed_matrix (p : gmap string jsval) (k : string) :
  well_typed p -> k ∈ ["matrix1"%string; "matrix2"%string] ->
  exists a, get p k = JArr a.
Proof.
  intros Hp Hk.
  destruct (Hp k TNumberArray) as (v & Hv & Tv).
  { repeat (apply elem_of_cons in Hk as [-> | Hk]; [reflexivity |]).
    apply elem_of_nil in Hk. contradiction. }
  unfold get. rewrite Hv. destruct v; try discriminate. eexists. reflexivity.
Qed.

Lemma well_typed_default : well_typed default_params.
Proof.
  intros k t Ht.
  assert (Hk : k ∈ export_keys) by (apply field_type_exported; eexists; exact Ht).
  unfold export_keys in Hk.
  repeat (apply elem_of_cons in Hk as [-> | Hk];
          [ vm_compute in Ht; injection Ht as <-; eexists; split; vm_compute; reflexivity |]).
  apply elem_of_nil in Hk. contradiction.
Qed.

End TypingFacts.

(** X23.  The keys [exportParameters] writes are exactly the fields the
    interface [SimulationParams] declares. *)
Theorem export_covers_interface (k : string) :
  is_Some (App.field_type k) <-> k ∈ Store.export_keys.
Proof. apply field_type_exported. Qed.

(** X24.  The import of a well-formed document into a well-typed store
    leaves the store well-typed, whether the rest of the import succeeds
    or not. *)
Theorem well_formed_import_keeps_types (d : App.jsval) (st : App.State) :
  Typing.well_typed (App.params st) ->
  App.well_formed d = true ->
  Typing.well_typed (App.params (App.importParameters (Some d) st).1).
Proof.
  intros Hp Hd. rewrite importParameters_params. apply well_typed_assign; assumption.
Qed.

Lemma well_formed_import_keeps_types_witness :
  Typing.well_typed
    (App.params
       (App.importParameters (Some (App.JObj [("gridSize"%string, App.JNum (Fin 5))]))
                             App.initial_state).1).
Proof.
  apply (well_formed_import_keeps_types
           (App.JObj [("gridSize"%string, App.JNum (Fin 5))]) App.initial_state).
  - exact well_typed_default.
  - reflexivity.
Defined.

(* ===================================================================== *)
(** ** The lattice under the identity transform *)
(* ===================================================================== *)



(* ===================================================================== *)
(** ** Resetting twice *)
(* ===================================================================== *)

Section ResetFacts.

Import App Guarded.

Lemma updateValueUniform_run (k : string) (st : State) :
  updateValueUniform k st
  = (set_uniforms (overwrite k (UVal (get (params st) k))) st, Some tt).
Proof.
  unfold updateValueUniform, bind, read, modify, ret, overwrite.
  destruct (bool_decide (is_Some (uniforms st !! k))) eqn:E.
  - unfold set_uniforms. cbn. rewrite E. reflexivity.
  - unfold set_uniforms. cbn. rewrite E. destruct st; reflexivity.
Qed.

Lemma updateMatrixUniform_run (k : string) (st : State) (e : list jsval) :
  fromArray (get (params st) k) = Some e ->
  updateMatrixUniform k st = (set_uniforms (overwrite k (UMatrix e)) st, Some tt).
Proof.
  intros He. unfold updateMatrixUniform, bind, read, modify, lift, ret, overwrite.
  destruct (bool_decide (is_Some (uniforms st !! k))) eqn:E.
  - rewrite He. unfold set_uniforms. cbn. rewrite E. reflexivity.
  - unfold set_uniforms. cbn. rewrite E. destruct st; reflexivity.
Qed.

Lemma overwrite_idem {V} (k : string) (v : V) (u : gmap string V) :
  overwrite k v (overwrite k v u) = overwrite k v u.
Proof.
  unfold overwrite. destruct (bool_decide (is_Some (u !! k))) eqn:E.
  - assert (S : is_Some (<[ k := v ]> u !! k)) by (rewrite lookup_insert_eq; eauto).
    rewrite (bool_decide_eq_true_2 _ S). apply insert_insert_eq.
  - rewrite E. reflexivity.
Qed.

Lemma overwrite_comm {V} (k k' : string) (v v' : V) (u : gmap string V) :
  k <> k' ->
  overwrite k v (overwrite k' v' u) = overwrite k' v' (overwrite k v u).
Proof.
  intros Hne. unfold overwrite.
  assert (Hne' : k' <> k) by congruence.
  pose proof (fun x => lookup_insert_ne u k k' x Hne) as L1.
  pose proof (fun x => lookup_insert_ne u k' k x Hne') as L2.
  destruct (bool_decide (is_Some (u !! k))) eqn:E, (bool_decide (is_Some (u !! k'))) eqn:E';
    rewrite ?L1, ?L2, ?E, ?E'; try reflexivity.
  apply insert_insert_ne. exact Hne.
Qed.

(** [resetRotation] written out. *)
Lemma resetRotation_unfold (st : State) (e : list jsval) :
  fromArray createIdentityMatrix = Some e ->
  resetRotation st
  = {| params := <[ "interpolation"%string := JNum (Fin 0.5) ]>
                   (<[ "matrix2"%string := createIdentityMatrix ]>
                      (<[ "matrix1"%string := createIdentityMatrix ]> (params st)));
       angleXY := Fin 0;
       angleZW := Fin 0;
       uniforms := overwrite "interpolation" (UVal (JNum (Fin 0.5)))
                     (overwrite "matrix2" (UMatrix e)
                        (overwrite "matrix1" (UMatrix e) (uniforms st))) |}.
Proof.
  intros He. unfold resetRotation.
  cbv beta iota zeta delta [bind modify].
  unfold updateShaderUniforms, bind.
  rewrite (updateMatrixUniform_run _ _ e).
  2:{ cbn. rewrite get_insert_ne by discriminate. rewrite get_insert_ne by discriminate.
      rewrite get_insert_eq. exact He. }
  rewrite (updateMatrixUniform_run _ _ e).
  2:{ cbn. rewrite get_insert_ne by discriminate. rewrite get_insert_eq. exact He. }
  rewrite updateValueUniform_run. cbn. rewrite get_insert_eq. reflexivity.
Qed.

End ResetFacts.

(** X26.  Resetting the rotation twice gives the same state as
    resetting it once. *)
Theorem resetRotation_idempotent (st : App.State) :
  App.resetRotation (App.resetRotation st) = App.resetRotation st.
Proof.
  destruct fromArray_identity as [e He].
  rewrite !(resetRotation_unfold _ e He).
  cbn [App.params App.uniforms]. f_equal.
  - apply map_eq. intros k. rewrite !lookup_insert.
    repeat case_decide; reflexivity.
  - rewrite (overwrite_comm "matrix1" "interpolation") by discriminate.
    rewrite (overwrite_comm "matrix1" "matrix2") by discriminate.
    rewrite overwrite_idem.
    rewrite (overwrite_comm "matrix2" "interpolation") by discriminate.
    rewrite !overwrite_idem. reflexivity.
Qed.
